(** * dstgo/tracker: the lobby snapshot store and its collector

    A shallow embedding of [internal/data/repo/lobby.go] (the repository over
    the "lobby" collection) and of the lobby handler that drives it
    ([GetServersByPage], [GetAllServersFromLobby], [ClearExpiredServers],
    [SyncLocalServers], [processLobbyServer]).

    Go functions returning [(value, error)] are modelled as functions
    returning a pair [value * option error]; the collection the repository
    mutates is passed in and out explicitly.

    The MongoDB server and the qmgo driver are outside the repository.
    Their operations are modelled on a collection kept as the list of its
    documents in insertion order; what each operation is taken to do is
    said where it is defined.  The regular-expression engine of the
    server, the order in which the server emits the groups of a [$group]
    stage, the lobby client, the platform table and the geoip reader are
    parameters. *)

From Stdlib Require Import ZArith Ascii String.
From stdpp Require Import base strings list gmap sorting.

Local Open Scope string_scope.
Local Open Scope Z_scope.
Local Open Scope list_scope.

(** ** Go integers *)

(** [int], [int64] and [time.Duration] are 64-bit two's complement. *)
Definition wrap64 (z : Z) : Z := (z + 2 ^ 63) mod 2 ^ 64 - 2 ^ 63.

Definition maxInt64 : Z := 2 ^ 63 - 1.

(** ** Errors *)

Inductive error :=
| ErrNoSuchDocuments                 (* qmgo.ErrNoSuchDocuments *)
| ErrNotValidSliceToInsert           (* qmgo.ErrNotValidSliceToInsert *)
| ErrCommand (msg : string)          (* a command the server rejects *)
| ErrExternal (msg : string).        (* lobby or geoip provider failure *)

#[global] Instance error_eq_dec : EqDecision error.
Proof. solve_decision. Defined.

(** ** BSON values and query conditions *)

Definition ObjectID := nat.

Inductive Value :=
| VNull
| VBool (b : bool)
| VInt (z : Z)
| VStr (s : string)
| VStrs (l : list string)
| VOid (o : ObjectID).

#[global] Instance Value_eq_dec : EqDecision Value.
Proof. solve_decision. Defined.

(** The right-hand sides a [bson.M] filter of this program carries: a plain
    value (equality), [{"$regex": p, "$options": o}], [{"$in": vs}] and
    [{"$lte": v}].  A nil Go slice under ["$in"] is encoded as null, which is
    [CIn None]. *)
Inductive Cond :=
| CEq (v : Value)
| CRegex (pattern options : string)
| CIn (vs : option (list Value))
| CLte (v : Value).

(** ** Documents *)

(** Modelled from the spec: [lobbyapi.Server], whose declaration is not
    among the sources.  The fields are the ones the specification lists
    for a server record, under the names and BSON keys the handler and the
    queries use. *)
Module lobbyapi.
Record Server := {
  RowId : string;
  SteamClanId : string;
  Address : string;
  Port : Z;
  Host : string;
  Platform : Z;
  Version : Z;
  Name : string;
  GameMode : string;
  Intent : string;
  Season : string;
  Tags : string;
  MaxConnections : Z;
  Connected : Z;
  ModEnabled : bool;
  PvpEnabled : bool;
  HasPassword : bool;
  IsDedicated : bool;
  ClientHosted : bool;
  AllowNewPlayers : bool;
  ServerPaused : bool;
  FriendOnly : bool;
  ClanOnly : bool
}.
End lobbyapi.
Import lobbyapi.

(** [repo.LobbyServer]: geo information, the creation timestamp and the
    embedded [lobbyapi.Server]. *)
Record LobbyServer := {
  Region : string;
  Continent : string;
  Area : string;
  City : string;
  PlatformName : string;
  TagNames : list string;
  CreatedAt : Z;
  Server : lobbyapi.Server
}.

(** A stored document: the [_id] the driver assigns on insertion and the
    marshalled [LobbyServer]. *)
Record Document := {
  _id : ObjectID;
  body : LobbyServer
}.

(** The value of a stored document under a BSON key, for the keys the
    program queries or indexes.  A nil [TagNames] slice is stored as
    null. *)
Definition field (d : Document) (k : string) : option Value :=
  let s := body d in
  match k with
  | "_id" => Some (VOid (_id d))
  | "region" => Some (VStr (Region s))
  | "continent" => Some (VStr (Continent s))
  | "area" => Some (VStr (Area s))
  | "city" => Some (VStr (City s))
  | "platform_name" => Some (VStr (PlatformName s))
  | "tag_names" => Some (match TagNames s with [] => VNull | l => VStrs l end)
  | "created_at" => Some (VInt (CreatedAt s))
  | "row_id" => Some (VStr (RowId (Server s)))
  | "name" => Some (VStr (Name (Server s)))
  | "address" => Some (VStr (Address (Server s)))
  | "platform" => Some (VInt (Platform (Server s)))
  | "game_mode" => Some (VStr (GameMode (Server s)))
  | "intent" => Some (VStr (Intent (Server s)))
  | "tags" => Some (VStr (Tags (Server s)))
  | "mod_enabled" => Some (VBool (ModEnabled (Server s)))
  | "pvp_enabled" => Some (VBool (PvpEnabled (Server s)))
  | "has_password" => Some (VBool (HasPassword (Server s)))
  | _ => None
  end.

(** A field path ["$k"] in a [$group] stage: a missing field reads as null. *)
Definition fieldOrNull (d : Document) (k : string) : Value :=
  default VNull (field d k).

(** ** The collection *)

(** Documents in natural (insertion) order, and the next identifier the
    driver hands out. *)
Record Collection := {
  docs : list Document;
  nextId : ObjectID
}.

Definition emptyCollection : Collection := {| docs := []; nextId := 0%nat |}.

(** Identifiers are unique and were all handed out already. *)
Definition wf (c : Collection) : Prop :=
  NoDup (_id <$> docs c) ∧ Forall (λ d, (_id d < nextId c)%nat) (docs c).

(** Modelled from the spec: [types.PageResult[T]], declared outside the
    sources: the total and the items of a page. *)
Record PageResult (A : Type) := {
  Total : Z;
  List : list A
}.
Arguments Total {A} _.
Arguments List {A} _.

Section Store.

(** The server's regular-expression engine: [regexValid p o] tells whether
    it accepts pattern [p] with options [o], and [regexMatch p o s] whether
    the pattern matches the string [s]. *)
Variable regexMatch : string → string → string → bool.
Variable regexValid : string → string → bool.

(** The server promises no order for the groups a [$group] stage emits.
    The order is a parameter: [emitRank] ranks the group keys, and the
    groups leave the stage by increasing rank, groups of equal rank in the
    order in which their first documents arrive.  The keys of the groups of
    one stage differ, so every order of these groups is the order of some
    [emitRank] (lemma [emitOrder_any_order] below); the constant rank is
    the order of arrival. *)
Variable emitRank : Value → Z.

(** *** Query matching *)

(** Equality against a stored value: an array field matches a scalar it
    contains; a missing field matches only null. *)
Definition valueEq (fv : option Value) (v : Value) : bool :=
  match fv with
  | None => bool_decide (v = VNull)
  | Some (VStrs l) =>
      bool_decide (VStrs l = v)
      || match v with VStr s => bool_decide (s ∈ l) | _ => false end
  | Some x => bool_decide (x = v)
  end.

Definition holds (fv : option Value) (c : Cond) : bool :=
  match c with
  | CEq v => valueEq fv v
  | CRegex p o =>
      match fv with
      | Some (VStr s) => regexMatch p o s
      | Some (VStrs l) => existsb (regexMatch p o) l
      | _ => false
      end
  | CIn vs => existsb (valueEq fv) (default [] vs)
  | CLte v =>
      match fv, v with
      | Some (VInt a), VInt b => a <=? b
      | _, _ => false
      end
  end.

(** A document matches a filter when every entry holds (implicit AND). *)
Definition matches (f : gmap string Cond) (d : Document) : Prop :=
  map_Forall (λ k c, holds (field d k) c = true) f.

#[global] Instance matches_dec f d : Decision (matches f d).
Proof. unfold matches. apply _. Defined.

(** The server rejects a filter holding [{"$in": null}]
    ("$in needs an array") or a pattern that its regular-expression engine
    does not accept. *)
Definition condOk (c : Cond) : bool :=
  match c with
  | CIn None => false
  | CRegex p o => regexValid p o
  | _ => true
  end.

Definition filterOk (f : gmap string Cond) : Prop :=
  map_Forall (λ _ c, condOk c = true) f.

#[global] Instance filterOk_dec f : Decision (filterOk f).
Proof. unfold filterOk. apply _. Defined.

Definition errInNeedsArray : error := ErrCommand "$in needs an array".
Definition errRegexInvalid : error :=
  ErrCommand "Regular expression is invalid".
Definition errSkipNegative : error :=
  ErrCommand "$skip: expected a non-negative number".
Definition errLimitNotPositive : error :=
  ErrCommand "$limit: the limit must be positive".

(** The error for a filter the server rejects.  No filter of this program
    holds both a null ["$in"] and a pattern. *)
Definition nullIn (c : Cond) : bool :=
  match c with CIn None => true | _ => false end.

Definition rejection (f : gmap string Cond) : error :=
  if decide (map_Forall (λ _ c, nullIn c = false) f) then errRegexInvalid
  else errInNeedsArray.

(** *** Aggregation stages *)

(** [{"$match": f}]. *)
Definition matchStage (f : gmap string Cond) (l : list Document)
  : error + list Document :=
  if decide (filterOk f) then inr (filter (matches f) l)
  else inl (rejection f).

(** The document a [$group] stage emits for the group opened by [d]: the
    group key under ["_id"], and for every [(name, path)] of [firsts] the
    accumulator [name: {"$first": "$path"}], read off [d], the first
    document of the group. *)
Definition groupDoc (key : string) (firsts : list (string * string))
    (d : Document) : gmap string Value :=
  list_to_map
    (("_id", fieldOrNull d key)
     :: ((λ np : string * string, (np.1, fieldOrNull d np.2)) <$> firsts)).

(** The groups of [{"$group": {"_id": "$key", ...}}], in the order in which
    their first documents arrive.  [seen] holds the keys already opened. *)
Fixpoint groupFrom (seen : list Value) (key : string)
    (firsts : list (string * string)) (l : list Document)
  : list (gmap string Value) :=
  match l with
  | [] => []
  | d :: l' =>
      let k := fieldOrNull d key in
      if bool_decide (k ∈ seen) then groupFrom seen key firsts l'
      else groupDoc key firsts d :: groupFrom (k :: seen) key firsts l'
  end.

Fixpoint insertBy {A} (le : A → A → bool) (x : A) (l : list A) : list A :=
  match l with
  | [] => [x]
  | y :: l' => if le x y then x :: l else y :: insertBy le x l'
  end.

(** The groups in the order in which the server emits them. *)
Definition emitOrder (l : list (gmap string Value))
  : list (gmap string Value) :=
  let r m := emitRank (default VNull (m !! "_id")) in
  foldr (insertBy (λ a b, r a <=? r b)) [] l.

(** [{"$group": {"_id": "$key", ...}}]. *)
Definition groupStage (key : string) (firsts : list (string * string))
    (l : list Document) : list (gmap string Value) :=
  emitOrder (groupFrom [] key firsts l).

(** The BSON comparison order on the values of this model: null (and a
    missing field) first, then numbers, strings, arrays, object ids and
    booleans; arrays are not ordered among themselves. *)
Definition rank (v : Value) : Z :=
  match v with
  | VNull => 1 | VInt _ => 2 | VStr _ => 3 | VStrs _ => 5 | VOid _ => 7
  | VBool _ => 8
  end.

Definition valueLe (a b : Value) : bool :=
  match a, b with
  | VInt x, VInt y => x <=? y
  | VStr x, VStr y => String.leb x y
  | VOid x, VOid y => (x <=? y)%nat
  | VBool x, VBool y => implb x y
  | _, _ => rank a <=? rank b
  end.

(** [{"$sort": {key: dir}}] as a stable sort; [dir] is [1] (ascending) or
    [-1] (descending).  The sort key of a document without the field is
    null. *)
Definition sortStage (key : string) (dir : Z)
    (l : list (gmap string Value)) : list (gmap string Value) :=
  let k m := default VNull (m !! key) in
  let le a b := if 0 <=? dir then valueLe (k a) (k b) else valueLe (k b) (k a) in
  foldr (insertBy le) [] l.

(** [{"$skip": n}]: the server rejects a negative argument. *)
Definition skipStage {A} (n : Z) (l : list A) : error + list A :=
  if n <? 0 then inl errSkipNegative
  else inr (drop (Z.to_nat n) l).

(** [{"$limit": n}]: the server rejects a non-positive argument. *)
Definition limitStage {A} (n : Z) (l : list A) : error + list A :=
  if n <=? 0 then inl errLimitNotPositive
  else inr (take (Z.to_nat n) l).

(** *** Driver calls *)

(** [Aggregate(...).One(&result)]: decodes the first document of the cursor
    into [result]; qmgo returns [ErrNoSuchDocuments] when the cursor holds
    none, leaving [result] as it was. *)
Definition aggOne (out : list (gmap string Value))
    (result : gmap string Value) : gmap string Value * option error :=
  match out with
  | [] => (result, Some ErrNoSuchDocuments)
  | m :: _ => (m, None)
  end.

(** [Find(ctx, f).EstimatedCount()]: qmgo answers from the collection's
    metadata ([EstimatedDocumentCount], which takes no filter): the number
    of documents in the collection, whatever [f] is. *)
Definition estimatedCount (c : Collection) (f : gmap string Cond) : Z :=
  Z.of_nat (length (docs c)).

(** [Find(ctx, f).All(&list)]: the matching documents in natural order. *)
Definition findAll (c : Collection) (f : gmap string Cond)
  : error + list Document :=
  if decide (filterOk f) then inr (filter (matches f) (docs c))
  else inl (rejection f).

(** [RemoveAll(ctx, f)]: deletes every matching document and reports how
    many there were. *)
Definition removeAll (c : Collection) (f : gmap string Cond)
  : Collection * (error + Z) :=
  if decide (filterOk f) then
    ({| docs := filter (λ d, ¬ matches f d) (docs c); nextId := nextId c |},
     inr (Z.of_nat (length (filter (matches f) (docs c)))))
  else (c, inl (rejection f)).

(** [InsertMany(ctx, servers)]: appends the documents under fresh
    identifiers and returns these; qmgo refuses an empty slice. *)
Definition insertMany (c : Collection) (servers : list LobbyServer)
  : Collection * (error + list ObjectID) :=
  match servers with
  | [] => (c, inl ErrNotValidSliceToInsert)
  | _ =>
      let ds := imap (λ i s, {| _id := (nextId c + i)%nat; body := s |}) servers in
      ({| docs := docs c ++ ds; nextId := (nextId c + length servers)%nat |},
       inr (_id <$> ds))
  end.

(** ** [LobbyRepo] *)

(** [RemoveServers] returns deletedCount and total count after removing the
    specified servers. *)
Definition RemoveServers (c : Collection) (filter : gmap string Cond)
  : Collection * (Z * Z * option error) :=
  match removeAll c filter with
  | (c', inl err) => (c', (0, 0, Some err))
  | (c', inr deletedCount) =>
      let estimatedCount := estimatedCount c' ∅ in
      (c', (deletedCount, estimatedCount, None))
  end.

Definition InsertManyServers (c : Collection) (servers : list LobbyServer)
  : Collection * (Z * option error) :=
  match insertMany c servers with
  | (c', inl err) => (c', (0, Some err))
  | (c', inr insertedIDs) => (c', (Z.of_nat (length insertedIDs), None))
  end.

(** The first aggregation of [FindServers],
    [Aggregate({$group: {_id: "$created_at"}}, {$sort: {created: 1}}).One(&lastTs)]. *)
Definition latestTimestamp (c : Collection) (lastTs : gmap string Value)
  : gmap string Value * option error :=
  aggOne (sortStage "created" 1 (groupStage "created_at" [] (docs c))) lastTs.

(** [FindServers] returns list of servers by page. *)
Definition FindServers (c : Collection) (page size : Z) (sort : string)
    (filter : gmap string Cond) : PageResult LobbyServer * option error :=
  let page := if page <=? 0 then 1 else page in
  let size := if size <=? 0 then 10 else size in
  let sort := if decide (sort = "") then "name" else sort in
  let result := {| Total := 0; List := [] |} in
  let lastTs : gmap string Value := ∅ in
  (* get the latest inserted timestamp *)
  let '(lastTs, err) := latestTimestamp c lastTs in
  match err with
  | Some err => (result, Some err)
  | None =>
  (* mean to there has no data in database *)
  if decide (base.size lastTs = 0%nat) then (result, None) else
  (* specify latest timestamp *)
  let ts := default VNull (lastTs !! "_id") in
  let filter := <["created_at" := CEq ts]> filter in
  (* total count *)
  let total := estimatedCount c {["created_at" := CEq ts]} in
  let result := {| Total := total; List := List result |} in
  (* filter results and distinct by row_id, then pagination *)
  match matchStage filter (docs c) with
  | inl err => (result, Some err)
  | inr matched =>
  let grouped := groupStage "row_id" [("object_id", "_id")] matched in
  match skipStage (wrap64 ((page - 1) * size)) grouped with
  | inl err => (result, Some err)
  | inr skipped =>
  match limitStage size skipped with
  | inl err => (result, Some err)
  | inr objs =>
  (* collect object_id *)
  let ids : option (list Value) :=
    match objs with
    | [] => None
    | _ => Some ((λ obj, default VNull (obj !! "object_id")) <$> objs)
    end in
  (* find final result *)
  match findAll c {["_id" := CIn ids]} with
  | inl err => (result, Some err)
  | inr found => ({| Total := Total result; List := body <$> found |}, None)
  end end end end end.

End Store.

(** ** The lobby handler *)

(** Modelled from the spec: [types.QueryLobbyServersOptions], declared
    outside the sources, with the fields [GetServersByPage] reads; the
    tri-state flags are integers: zero is "not asked", positive is true,
    negative is false. *)
Module Options.
Record t := {
  Name : string;
  Address : string;
  Area : string;
  Intent : string;
  GameMode : string;
  PvpEnabled : Z;
  HasPassword : Z;
  ModEnabled : Z;
  Tags : string;
  Page : Z;
  Size : Z;
  Sort : string
}.
End Options.

(** Modelled from the spec: [types.QueryLobbyServersResp], declared
    outside the sources; the fields are those [lobbyRepo2Resp] fills. *)
Module Resp.
Record t := {
  RowId : string;
  SteamClanId : string;
  Address : string;
  Port : Z;
  Host : string;
  Region : string;
  Continent : string;
  Area : string;
  City : string;
  PlatformName : string;
  Platform : Z;
  Version : Z;
  Name : string;
  GameMode : string;
  Intent : string;
  Season : string;
  Tags : list string;
  MaxPlayers : Z;
  Online : Z;
  Mod : bool;
  Pvp : bool;
  HasPassword : bool;
  IsDedicated : bool;
  ClientHosted : bool;
  AllowNewPlayers : bool;
  ServerPaused : bool;
  FriendOnly : bool;
  ClanOnly : bool
}.
End Resp.

(** The record [geoip.City] answers with; only these three entries are
    read. *)
Record CityInfo := {
  ContinentCode : string;
  CountryIsoCode : string;
  CityNameEn : string
}.

(** [strings.Split(s, ",")]. *)
Fixpoint splitComma (s : string) : list string :=
  match s with
  | EmptyString => [""]
  | String c s' =>
      if Ascii.eqb c ","%char then "" :: splitComma s'
      else match splitComma s' with
           | [] => [String c ""]
           | w :: ws => String c w :: ws
           end
  end.

(** [time.Time] as nanoseconds since the epoch, [time.Duration] as an
    [int64] of nanoseconds. *)
Definition Add (t d : Z) : Z := t + d.
Definition UnixMilli (t : Z) : Z := wrap64 (t / 1000000).

Definition lobbyRepo2Resp (servers : list LobbyServer) : list Resp.t :=
  (λ server : LobbyServer,
     {| Resp.RowId := RowId (Server server);
        Resp.SteamClanId := SteamClanId (Server server);
        Resp.Address := Address (Server server);
        Resp.Port := Port (Server server);
        Resp.Host := Host (Server server);
        Resp.Region := Region server;
        Resp.Continent := Continent server;
        Resp.Area := Area server;
        Resp.City := City server;
        Resp.PlatformName := PlatformName server;
        Resp.Platform := Platform (Server server);
        Resp.Version := Version (Server server);
        Resp.Name := Name (Server server);
        Resp.GameMode := GameMode (Server server);
        Resp.Intent := Intent (Server server);
        Resp.Season := Season (Server server);
        (* convert tags into array *)
        Resp.Tags := TagNames server;
        Resp.MaxPlayers := MaxConnections (Server server);
        Resp.Online := Connected (Server server);
        Resp.Mod := ModEnabled (Server server);
        Resp.Pvp := PvpEnabled (Server server);
        Resp.HasPassword := HasPassword (Server server);
        Resp.IsDedicated := IsDedicated (Server server);
        Resp.ClientHosted := ClientHosted (Server server);
        Resp.AllowNewPlayers := AllowNewPlayers (Server server);
        Resp.ServerPaused := ServerPaused (Server server);
        Resp.FriendOnly := FriendOnly (Server server);
        Resp.ClanOnly := ClanOnly (Server server) |}) <$> servers.

Section Handler.

(** The server behind the repository. *)
Variable regexMatch : string → string → string → bool.
Variable regexValid : string → string → bool.
Variable emitRank : Value → Z.

(** The collaborators of [LobbyMongoHandler]: the lobby client, the
    platform table of [lobbyapi] and the geoip reader. *)
Variable GetCapableRegions : error + list string.
Variable GetLobbyServers : string → Z → error + list lobbyapi.Server.
Variable ExplicitPlatforms : list Z.
Variable PlatformDisplayName : string → Z → string.
(** [geoip.City(net.ParseIP(address))]. *)
Variable geoipCity : string → error + CityInfo.

Definition GetServersByPage (c : Collection) (options : Options.t)
  : PageResult Resp.t * option error :=
  let queryM : gmap string Cond := ∅ in
  let queryM :=
    if decide (Options.Name options ≠ "")
    then <["name" := CRegex (Options.Name options) "i"]> queryM
    else queryM in
  let queryM :=
    if decide (Options.Address options ≠ "")
    then <["address" := CEq (VStr (Options.Address options))]> queryM
    else queryM in
  let queryM :=
    if decide (Options.Area options ≠ "")
    then <["area" := CEq (VStr (Options.Area options))]> queryM
    else queryM in
  let queryM :=
    if decide (Options.Intent options ≠ "")
    then <["intent" := CEq (VStr (Options.Intent options))]> queryM
    else queryM in
  let queryM :=
    if decide (Options.GameMode options ≠ "")
    then <["game_mode" := CEq (VStr (Options.GameMode options))]> queryM
    else queryM in
  let queryM :=
    if decide (Options.PvpEnabled options ≠ 0)
    then <["pvp_enabled" := CEq (VBool (0 <? Options.PvpEnabled options))]> queryM
    else queryM in
  let queryM :=
    if decide (Options.HasPassword options ≠ 0)
    then <["has_password" := CEq (VBool (0 <? Options.PvpEnabled options))]> queryM
    else queryM in
  let queryM :=
    if decide (Options.ModEnabled options ≠ 0)
    then <["mod_enabled" := CEq (VBool (0 <? Options.ModEnabled options))]> queryM
    else queryM in
  (* server tags *)
  let tags := splitComma (Options.Tags options) in
  let queryM :=
    if decide (Options.Tags options ≠ "" ∧ (0 < length tags)%nat)
    then <["tag_names" := CIn (Some (VStr <$> tags))]> queryM
    else queryM in
  let pageResult : PageResult Resp.t := {| Total := 0; List := [] |} in
  let '(result, err) :=
    FindServers regexMatch regexValid emitRank c (Options.Page options)
      (Options.Size options) (Options.Sort options) queryM in
  match err with
  | Some err => (pageResult, Some err)
  | None => ({| Total := Total result; List := lobbyRepo2Resp (List result) |}, None)
  end.

(** The loop of [processLobbyServer], with [ans] the slice built so far. *)
Fixpoint processLoop (servers : list lobbyapi.Server) (region : string) (ts : Z)
    (ans : list LobbyServer) : list LobbyServer * option error :=
  match servers with
  | [] => (ans, None)
  | server :: rest =>
      (* tags *)
      let tagNames :=
        if decide (Tags server ≠ "") then splitComma (Tags server) else [] in
      (* geo information *)
      match geoipCity (Address server) with
      | inl err => ([], Some err)
      | inr city =>
          let s := {| Region := region;
                      Continent := ContinentCode city;
                      Area := CountryIsoCode city;
                      City := CityNameEn city;
                      (* display platform *)
                      PlatformName := PlatformDisplayName region (Platform server);
                      TagNames := tagNames;
                      CreatedAt := ts;
                      Server := server |} in
          processLoop rest region ts (ans ++ [s])%list
      end
  end.

Definition processLobbyServer (servers : list lobbyapi.Server) (region : string)
    (ts : Z) : list LobbyServer * option error :=
  processLoop servers region ts [].

(** One unit of the fan-out, the closure handed to [group.Go] for a
    [(region, platform)] pair: the records it appends to the shared slice
    and the error it returns. *)
Definition fanoutUnit (ts : Z) (rp : string * Z) : list LobbyServer * option error :=
  (* get servers *)
  match GetLobbyServers rp.1 rp.2 with
  | inl err => ([], Some err)
  | inr lobbyServers =>
      (* return if list is empty *)
      match lobbyServers with
      | [] => ([], None)
      | _ =>
          (* process *)
          match processLobbyServer lobbyServers rp.1 ts with
          | (_, Some err) => ([], Some err)
          | (processList, None) => (processList, None)
          end
      end
  end.

(** The effect of one finished unit on the state the units share: the
    slice [servers], appended to under the mutex, and the error of the
    group, which [errgroup] sets once, by the first unit that fails. *)
Definition finish (ts : Z) (st : list LobbyServer * option error)
    (rp : string * Z) : list LobbyServer * option error :=
  match fanoutUnit ts rp with
  | (_, Some err) => (st.1, match st.2 with None => Some err | e => e end)
  | (processList, None) => ((st.1 ++ processList)%list, st.2)
  end.

(** The units launched: one per region and platform, each closure seeing
    the region and the platform of its own iteration. *)
Definition units (regions : list string) : list (string * Z) :=
  region ← regions; platform ← ExplicitPlatforms; [(region, platform)].

(** [GetAllServersFromLobby].  [now] is the clock read by [time.Now()];
    [order] is the order in which the units finish, some permutation of
    [units regions] chosen by the scheduler.  The context of the group is
    dropped by the code, so a failure stops no other unit.  [SetLimit 0] lets
    no goroutine start: the first [group.Go] blocks for ever and the call
    does not return, which is [None]. *)
Definition GetAllServersFromLobby (now : Z) (limit : Z)
    (order : list (string * Z)) : option (list LobbyServer * option error) :=
  match GetCapableRegions with
  | inl err => Some ([], Some err)
  | inr regions =>
      let ts := UnixMilli now in
      if decide (limit = 0 ∧ units regions ≠ []) then None
      else
        match foldl (finish ts) ([], None) order with
        (* error occurred *)
        | (_, Some err) => Some ([], Some err)
        | (servers, None) => Some (servers, None)
        end
  end.

Definition ClearExpiredServers (c : Collection) (now : Z) (ttl : Z)
  : Collection * (Z * Z * option error) :=
  let expiredTs := UnixMilli (Add now (wrap64 (- ttl))) in
  let filter : gmap string Cond := {["created_at" := CLte (VInt expiredTs)]} in
  match RemoveServers regexMatch regexValid c filter with
  | (c', (_, _, Some err)) => (c', (0, 0, Some err))
  | (c', (deleted, total, None)) => (c', (deleted, total, None))
  end.

Definition SyncLocalServers (c : Collection) (now : Z) (limit : Z)
    (order : list (string * Z)) : option (Collection * (Z * option error)) :=
  match GetAllServersFromLobby now limit order with
  | None => None
  | Some (_, Some err) => Some (c, (0, Some err))
  | Some (servers, None) =>
      (* store the server information into mongodb *)
      Some (InsertManyServers c servers)
  end.

End Handler.

(** ** The result set, as the specification words it *)

Definition rowOf (d : Document) : string := RowId (Server (body d)).

(** One representative per [rowId], the first-inserted one: a document is
    kept when no earlier document ([earlier] and those met on the way) has
    its [rowId]. *)
Fixpoint firstPerRow (earlier l : list Document) : list Document :=
  match l with
  | [] => []
  | d :: l' =>
      if bool_decide (rowOf d ∈ rowOf <$> earlier)
      then firstPerRow (earlier ++ [d]) l'
      else d :: firstPerRow (earlier ++ [d]) l'
  end.

(** The listings of snapshot [ts] that satisfy [filter], in insertion
    order, and their deduplicated, insertion-ordered representative set. *)
Definition listings (regexMatch : string → string → string → bool)
    (c : Collection) (ts : Z) (filter : gmap string Cond) : list Document :=
  base.filter (matches regexMatch (<["created_at" := CEq (VInt ts)]> filter))
    (docs c).

Definition representatives (regexMatch : string → string → string → bool)
    (c : Collection) (ts : Z) (filter : gmap string Cond) : list Document :=
  firstPerRow [] (listings regexMatch c ts filter).

(** The snapshot timestamp that the first step of [FindServers] settles
    on. *)
Definition currentSnapshot (emitRank : Value → Z) (c : Collection)
  : option Z :=
  match latestTimestamp emitRank c ∅ with
  | (lastTs, None) =>
      match lastTs !! "_id" with Some (VInt ts) => Some ts | _ => None end
  | (_, Some _) => None
  end.

(** The maximum of the stored [createdAt] values. *)
Definition maxCreatedAt (c : Collection) : option Z :=
  match docs c with
  | [] => None
  | d :: l => Some (foldr (λ d' m, Z.max (CreatedAt (body d')) m)
                      (CreatedAt (body d)) l)
  end.

(** The number of stored documents created at [ts]. *)
Definition countAt (c : Collection) (ts : Z) : Z :=
  Z.of_nat (length (base.filter (λ d, CreatedAt (body d) = ts) (docs c))).

(** The place of a key in a list of keys, counted from zero. *)
Fixpoint position {K} `{!EqDecision K} (keys : list K) (x : K) : Z :=
  match keys with
  | [] => 0
  | k :: ks => if decide (k = x) then 0 else 1 + position ks x
  end.

(** The representatives in the order in which the [$group] by ["row_id"]
    emits their groups. *)
Definition emitted (emitRank : Value → Z) (l : list Document)
  : list Document :=
  let r d := emitRank (VStr (rowOf d)) in
  foldr (insertBy (λ a b, r a <=? r b)) [] l.

(** The slice of the representative set, as the server emits it, that
    makes page [i + 1] with [s] records to the page. *)
Definition slice (emitRank : Value → Z) (reps : list Document) (s i : nat)
  : list Document :=
  take s (drop (i * s) (emitted emitRank reps)).


(** ** Sample data *)

Definition sampleServer (row name : string) (password : bool)
  : lobbyapi.Server :=
  {| RowId := row; SteamClanId := ""; Address := "203.0.113.7";
     Port := 10999; Host := "KU_sample"; Platform := 1; Version := 500000;
     Name := name; GameMode := "survival"; Intent := "cooperative";
     Season := "autumn"; Tags := ""; MaxConnections := 6; Connected := 2;
     ModEnabled := false; PvpEnabled := false; HasPassword := password;
     IsDedicated := true; ClientHosted := false; AllowNewPlayers := true;
     ServerPaused := false; FriendOnly := false; ClanOnly := false |}.

Definition sampleListing (ts : Z) (s : lobbyapi.Server) : LobbyServer :=
  {| Region := "us-east-1"; Continent := "NA"; Area := "US"; City := "";
     PlatformName := "Steam"; TagNames := []; CreatedAt := ts; Server := s |}.

(** Two runs of the collector: three listings at 100, of which the first
    and the third are the same server, then one listing at 200. *)
Definition twoSnapshots : Collection :=
  (InsertManyServers
     (InsertManyServers emptyCollection
        [sampleListing 100 (sampleServer "a" "Alpha" false);
         sampleListing 100 (sampleServer "b" "Beta" false);
         sampleListing 100 (sampleServer "a" "Alpha" false)]).1
     [sampleListing 200 (sampleServer "c" "Gamma" false)]).1.

(** One server without a password. *)
Definition openServer : Collection :=
  (InsertManyServers emptyCollection
     [sampleListing 100 (sampleServer "a" "Alpha" false)]).1.

(** A query that asks for servers with a password, and nothing else. *)
Definition wantPassword : Options.t :=
  {| Options.Name := ""; Options.Address := ""; Options.Area := "";
     Options.Intent := ""; Options.GameMode := ""; Options.PvpEnabled := 0;
     Options.HasPassword := 1; Options.ModEnabled := 0; Options.Tags := "";
     Options.Page := 1; Options.Size := 10; Options.Sort := "" |}.

(** A regular-expression engine for literal patterns: [p] matches the
    strings that contain it. *)
Fixpoint contains (p s : string) : bool :=
  String.prefix p s
  || match s with
     | EmptyString => false
     | String _ s' => contains p s'
     end.

Definition literalRegex (p o s : string) : bool := contains p s.

(** Every literal pattern is one the engine accepts. *)
Definition anyPattern (p o : string) : bool := true.

(** Two orders of emission: the order of arrival, and the groups with the
    shorter keys first. *)
Definition inArrivalOrder (v : Value) : Z := 0.

Definition shortKeysFirst (v : Value) : Z :=
  match v with
  | VStr s => Z.of_nat (String.length s)
  | _ => 0
  end.


(** Collaborators: two regions, two platforms, one server per pair; the
    pairs [("US", 1)] and [("EU", 19)] list the same server, [rowId] 42. *)
Definition sampleRegions : error + list string := inr ["US"; "EU"].

Definition samplePlatforms : list Z := [1; 19].

Definition sampleLobby (region : string) (platform : Z)
  : error + list lobbyapi.Server :=
  if bool_decide (region = "US") then
    if platform =? 1 then inr [sampleServer "42" "Alpha" false]
    else inr [sampleServer "7" "Beta" false]
  else
    if platform =? 1 then inr [sampleServer "9" "Gamma" false]
    else inr [sampleServer "42" "Alpha" false].

(** The same lobby, with the listing of [("EU", 1)] failing. *)
Definition failingLobby (region : string) (platform : Z)
  : error + list lobbyapi.Server :=
  if bool_decide (region = "EU") && (platform =? 1)
  then inl (ErrExternal "lobby: request timed out")
  else sampleLobby region platform.

Definition sampleDisplayName (region : string) (platform : Z) : string :=
  if platform =? 1 then "Steam" else "PSN".

Definition sampleGeoip (address : string) : error + CityInfo :=
  inr {| ContinentCode := "NA"; CountryIsoCode := "US"; CityNameEn := "" |}.

(** A clock reading, in nanoseconds. *)
Definition sampleNow : Z := 1700000000123456789.

Definition sampleOrder : list (string * Z) :=
  [("EU", 19); ("US", 1); ("EU", 1); ("US", 19)].

(** What the collector gathers from [sampleLobby] in that order, and the
    collection after storing it. *)
Definition sampleCollected : list LobbyServer :=
  Eval vm_compute in
    match GetAllServersFromLobby sampleRegions sampleLobby samplePlatforms
            sampleDisplayName sampleGeoip sampleNow 4 sampleOrder with
    | Some (servers, None) => servers
    | _ => []
    end.

Definition fourListings : Collection :=
  (InsertManyServers emptyCollection sampleCollected).1.


(** ** The details of one server *)

(** Modelled from the spec: [lobbyapi.ServerDetails], the answer of the
    lobby client for one server: the server record and its details, which
    the handler passes on without reading them. *)
Module ServerDetails.
Record t (D : Type) := {
  Server : lobbyapi.Server;
  Details : D
}.
Arguments Server {D} _.
Arguments Details {D} _.
End ServerDetails.

(** Modelled from the spec: [types.QueryLobbyServerDetailResp], the
    response record of a server with its details. *)
Module DetailResp.
Record t (D : Type) := {
  QueryLobbyServersResp : Resp.t;
  Details : D
}.
Arguments QueryLobbyServersResp {D} _.
Arguments Details {D} _.
End DetailResp.

(** The zero value of [types.QueryLobbyServersResp]. *)
Definition zeroResp : Resp.t :=
  {| Resp.RowId := ""; Resp.SteamClanId := ""; Resp.Address := "";
     Resp.Port := 0; Resp.Host := ""; Resp.Region := "";
     Resp.Continent := ""; Resp.Area := ""; Resp.City := "";
     Resp.PlatformName := ""; Resp.Platform := 0; Resp.Version := 0;
     Resp.Name := ""; Resp.GameMode := ""; Resp.Intent := "";
     Resp.Season := ""; Resp.Tags := []; Resp.MaxPlayers := 0;
     Resp.Online := 0; Resp.Mod := false; Resp.Pvp := false;
     Resp.HasPassword := false; Resp.IsDedicated := false;
     Resp.ClientHosted := false; Resp.AllowNewPlayers := false;
     Resp.ServerPaused := false; Resp.FriendOnly := false;
     Resp.ClanOnly := false |}.

(** The errors [GetServerDetails] returns: the error of a collaborator,
    handed on as it is, or its own
    [errors.New("lobby details: invalid processList")]. *)
Inductive detailsError :=
| Upstream (err : error)
| ErrInvalidProcessList.

Section ServerDetails.

(** The type of the details and its zero value. *)
Variable D : Type.
Variable zeroDetails : D.

(** [l.lobby.GetServerDetails(region, rowId)]. *)
Variable lobbyGetServerDetails : string → string → error + ServerDetails.t D.
Variable PlatformDisplayName : string → Z → string.
Variable geoipCity : string → error + CityInfo.

(** [GetServerDetails].  Indexing an empty slice panics, which is [None]. *)
Definition GetServerDetails (region rowId : string)
  : option (DetailResp.t D * option detailsError) :=
  let result :=
    {| DetailResp.QueryLobbyServersResp := zeroResp;
       DetailResp.Details := zeroDetails |} in
  (* get details *)
  match lobbyGetServerDetails region rowId with
  | inl err => Some (result, Some (Upstream err))
  | inr details =>
      (* process *)
      match processLobbyServer PlatformDisplayName geoipCity
              [ServerDetails.Server details] region 0 with
      | (_, Some err) => Some (result, Some (Upstream err))
      | (processList, None) =>
          (* it is impossible to occur at most time *)
          if (length processList <? 1)%nat
          then Some (result, Some ErrInvalidProcessList)
          else
            match lobbyRepo2Resp processList !! 0%nat with
            | None => None
            | Some resp =>
                Some ({| DetailResp.QueryLobbyServersResp := resp;
                         DetailResp.Details := ServerDetails.Details details |},
                      None)
            end
      end
  end.

End ServerDetails.

(** ** Further notions for the statements *)

(** [strings.Join(l, ",")]. *)
Fixpoint joinComma (l : list string) : string :=
  match l with
  | [] => ""
  | [s] => s
  | s :: l' => s +:+ "," +:+ joinComma l'
  end.

(** The string has no comma in it. *)
Fixpoint commaFree (s : string) : bool :=
  match s with
  | EmptyString => true
  | String c s' => negb (Ascii.eqb c ","%char) && commaFree s'
  end.

(** The record [processLobbyServer] makes of a server listed for [region]
    at [ts], once the geoip reader has answered [city]. *)
Definition enriched (PlatformDisplayName : string → Z → string)
    (region : string) (ts : Z) (server : lobbyapi.Server) (city : CityInfo)
  : LobbyServer :=
  {| Region := region;
     Continent := ContinentCode city;
     Area := CountryIsoCode city;
     City := CityNameEn city;
     PlatformName := PlatformDisplayName region (Platform server);
     TagNames := if decide (Tags server ≠ "") then splitComma (Tags server)
                 else [];
     CreatedAt := ts;
     Server := server |}.

(** The servers a region and platform pair lists; none when the listing
    fails. *)
Definition listed (GetLobbyServers : string → Z → error + list lobbyapi.Server)
    (rp : string * Z) : list lobbyapi.Server :=
  match GetLobbyServers rp.1 rp.2 with
  | inl _ => []
  | inr l => l
  end.

(** The page size and the page [FindServers] works with. *)
Definition effectiveSize (size : Z) : Z := if size <=? 0 then 10 else size.
Definition effectivePage (page : Z) : Z := if page <=? 0 then 1 else page.

(** What a response record has to meet for the options of a query, as
    [GetServersByPage] enforces them: every option that is set, with the
    tags meaning "one of these"; the password flag is enforced with the
    value of the pvp option. *)
Definition enforced (regexMatch : string → string → string → bool)
    (options : Options.t) (r : Resp.t) : Prop :=
  (Options.Name options ≠ "" →
     regexMatch (Options.Name options) "i" (Resp.Name r) = true)
  ∧ (Options.Address options ≠ "" → Resp.Address r = Options.Address options)
  ∧ (Options.Area options ≠ "" → Resp.Area r = Options.Area options)
  ∧ (Options.Intent options ≠ "" → Resp.Intent r = Options.Intent options)
  ∧ (Options.GameMode options ≠ "" →
       Resp.GameMode r = Options.GameMode options)
  ∧ (Options.PvpEnabled options ≠ 0 →
       Resp.Pvp r = (0 <? Options.PvpEnabled options))
  ∧ (Options.HasPassword options ≠ 0 →
       Resp.HasPassword r = (0 <? Options.PvpEnabled options))
  ∧ (Options.ModEnabled options ≠ 0 →
       Resp.Mod r = (0 <? Options.ModEnabled options))
  ∧ (Options.Tags options ≠ "" →
       ∃ tag, tag ∈ splitComma (Options.Tags options) ∧ tag ∈ Resp.Tags r).

(** ** Further sample data *)

(** The first page of [fourListings]. *)
Definition firstPage : PageResult LobbyServer :=
  Eval vm_compute in
    (FindServers literalRegex anyPattern inArrivalOrder fourListings 1 10
       "name" ∅).1.

(** A query for the servers in the US. *)
Definition usServers : Options.t :=
  {| Options.Name := ""; Options.Address := ""; Options.Area := "US";
     Options.Intent := ""; Options.GameMode := ""; Options.PvpEnabled := 0;
     Options.HasPassword := 0; Options.ModEnabled := 0; Options.Tags := "";
     Options.Page := 1; Options.Size := 10; Options.Sort := "" |}.

Definition usPage : PageResult Resp.t :=
  Eval vm_compute in
    (GetServersByPage literalRegex anyPattern inArrivalOrder fourListings
       usServers).1.

Definition sampleCity : CityInfo :=
  {| ContinentCode := "NA"; CountryIsoCode := "US"; CityNameEn := "" |}.

(** A server whose address is no IP address, a geoip reader that does not
    resolve it, and a lobby that lists it after another server. *)
Definition strayServer : lobbyapi.Server :=
  {| RowId := "13"; SteamClanId := ""; Address := "not-an-address";
     Port := 10999; Host := "KU_stray"; Platform := 1; Version := 500000;
     Name := "Stray"; GameMode := "survival"; Intent := "cooperative";
     Season := "autumn"; Tags := "caves,pvp"; MaxConnections := 6;
     Connected := 0; ModEnabled := false; PvpEnabled := true;
     HasPassword := false; IsDedicated := true; ClientHosted := false;
     AllowNewPlayers := true; ServerPaused := false; FriendOnly := false;
     ClanOnly := false |}.

Definition pickyGeoip (address : string) : error + CityInfo :=
  if bool_decide (address = "not-an-address")
  then inl (ErrExternal "geoip: address not found")
  else inr sampleCity.

Definition strayLobby (region : string) (platform : Z)
  : error + list lobbyapi.Server :=
  if bool_decide (region = "EU") && (platform =? 1)
  then inr [sampleServer "9" "Gamma" false; strayServer]
  else sampleLobby region platform.

(** An engine that refuses a pattern with an opening parenthesis and no
    closing one, and a query whose name pattern is such a pattern. *)
Definition closedParens (p o : string) : bool :=
  negb (contains "(" p) || contains ")" p.

Definition brokenName : Options.t :=
  {| Options.Name := "(alpha"; Options.Address := ""; Options.Area := "";
     Options.Intent := ""; Options.GameMode := ""; Options.PvpEnabled := 0;
     Options.HasPassword := 0; Options.ModEnabled := 0; Options.Tags := "";
     Options.Page := 1; Options.Size := 10; Options.Sort := "" |}.

(** A lobby that lists no server. *)
Definition quietLobby (region : string) (platform : Z)
  : error + list lobbyapi.Server := inr [].

(** * Properties *)

(** ** Lists *)

Lemma insertBy_least {A} (le : A → A → bool) (x : A) (l : list A) :
  (∀ y, y ∈ l → le x y = true) → insertBy le x l = x :: l.
Proof.
  destruct l as [|y l]; [done|]. intros Hle. simpl.
  by rewrite Hle by apply list_elem_of_here.
Qed.

Lemma sort_indifferent {A} (le : A → A → bool) (l : list A) :
  (∀ x y, x ∈ l → y ∈ l → le x y = true) → foldr (insertBy le) [] l = l.
Proof.
  induction l as [|x l IH]; [done|]. intros Hle. simpl.
  rewrite IH.
  - apply insertBy_least. intros y Hy.
    apply Hle; [apply list_elem_of_here | by apply list_elem_of_further].
  - intros a b Ha Hb. apply Hle; by apply list_elem_of_further.
Qed.


(** Insertion sort rearranges, and commutes with a map that respects the
    comparison. *)
Lemma insertBy_Permutation {A} (le : A → A → bool) (x : A) (l : list A) :
  insertBy le x l ≡ₚ x :: l.
Proof.
  induction l as [|y l IH]; [done|]. simpl. destruct (le x y); [done|].
  rewrite IH. apply Permutation_swap.
Qed.

Lemma sort_Permutation {A} (le : A → A → bool) (l : list A) :
  foldr (insertBy le) [] l ≡ₚ l.
Proof.
  induction l as [|x l IH]; [done|]. simpl.
  by rewrite insertBy_Permutation, IH.
Qed.

Lemma insertBy_fmap {A B} (f : A → B) (leA : A → A → bool)
    (leB : B → B → bool) (x : A) (l : list A) :
  (∀ a b, leB (f a) (f b) = leA a b) →
  insertBy leB (f x) (f <$> l) = f <$> insertBy leA x l.
Proof.
  intros Hle. induction l as [|y l IH]; [done|].
  rewrite fmap_cons. simpl. rewrite Hle. destruct (leA x y); [done|].
  by rewrite IH.
Qed.

Lemma sort_fmap {A B} (f : A → B) (leA : A → A → bool) (leB : B → B → bool)
    (l : list A) :
  (∀ a b, leB (f a) (f b) = leA a b) →
  foldr (insertBy leB) [] (f <$> l) = f <$> foldr (insertBy leA) [] l.
Proof.
  intros Hle. induction l as [|x l IH]; [done|].
  rewrite fmap_cons. simpl. rewrite IH. by apply insertBy_fmap.
Qed.

Section Adequacy.
Context {A K : Type} `{!EqDecision K} (key : A → K).

Lemma position_nonneg (keys : list K) (x : K) : 0 ≤ position keys x.
Proof. induction keys as [|k ks IH]; simpl; [done|]. case_decide; lia. Qed.

Lemma StronglySorted_on (R1 R2 : A → A → Prop) (l : list A) :
  (∀ a b, a ∈ l → b ∈ l → R1 a b → R2 a b) →
  StronglySorted R1 l → StronglySorted R2 l.
Proof.
  intros Himp Hl. induction Hl as [|x l Hl IH Hx]; constructor.
  - apply IH. intros a b Ha Hb. apply Himp; by right.
  - apply Forall_forall. intros y Hy. rewrite Forall_forall in Hx.
    apply Himp; [by left | by right | by apply Hx].
Qed.

(** A list is sorted by the positions of the keys of its own elements. *)
Lemma position_sorted (l : list A) :
  NoDup (key <$> l) →
  StronglySorted
    (λ a b, position (key <$> l) (key a) ≤ position (key <$> l) (key b)) l.
Proof.
  induction l as [|x l IH]; [constructor|].
  rewrite fmap_cons. intros [Hx Hnd]%NoDup_cons. constructor.
  - eapply StronglySorted_on; [|exact (IH Hnd)].
    intros a b Ha Hb Hab. simpl in Hab |- *.
    rewrite !decide_False; [lia| |];
      intros Heq; apply Hx; rewrite Heq; by apply list_elem_of_fmap_2.
  - apply Forall_forall. intros y Hy. simpl. rewrite decide_True by done.
    case_decide; [done|]. pose proof (position_nonneg (key <$> l) (key y)). lia.
Qed.

Lemma position_inj (l : list A) (a b : A) :
  NoDup (key <$> l) → a ∈ l → b ∈ l →
  position (key <$> l) (key a) = position (key <$> l) (key b) → a = b.
Proof.
  induction l as [|x l IH]; [by intros _ ?%elem_of_nil|].
  rewrite fmap_cons. intros [Hx Hnd]%NoDup_cons Ha Hb. simpl.
  assert (∀ y, y ∈ l → key x ≠ key y) as Hfresh.
  { intros y Hy Heq. apply Hx. rewrite Heq. by apply list_elem_of_fmap_2. }
  pose proof (position_nonneg (key <$> l)) as Hpos.
  apply elem_of_cons in Ha as [->|Ha]; apply elem_of_cons in Hb as [->|Hb].
  - done.
  - rewrite decide_True, decide_False by by try apply Hfresh.
    specialize (Hpos (key b)). lia.
  - rewrite decide_False, decide_True by by try apply Hfresh.
    specialize (Hpos (key a)). lia.
  - rewrite !decide_False by by apply Hfresh.
    intros Heq. apply IH; [done..|lia].
Qed.

Lemma insertBy_sorted (g : A → Z) (x : A) (l : list A) :
  StronglySorted (λ a b, g a ≤ g b) l →
  StronglySorted (λ a b, g a ≤ g b) (insertBy (λ a b, g a <=? g b) x l).
Proof.
  induction 1 as [|y l Hl IH Hy]; simpl; [by repeat constructor|].
  destruct (Z.leb_spec (g x) (g y)) as [Hxy|Hxy].
  - constructor; [by constructor|]. constructor; [done|].
    eapply Forall_impl; [exact Hy|]. intros z Hz. simpl in Hz. lia.
  - constructor; [done|]. rewrite insertBy_Permutation.
    constructor; [lia | done].
Qed.

Lemma sort_sorted (g : A → Z) (l : list A) :
  StronglySorted (λ a b, g a ≤ g b)
    (foldr (insertBy (λ a b, g a <=? g b)) [] l).
Proof.
  induction l as [|x l IH]; simpl; [constructor | by apply insertBy_sorted].
Qed.

(** Ranked by their positions in [l'], the elements of a rearrangement of
    [l'] are sorted into [l']. *)
Lemma sort_to_order (l l' : list A) :
  NoDup (key <$> l') → l ≡ₚ l' →
  foldr (insertBy (λ a b, position (key <$> l') (key a)
                          <=? position (key <$> l') (key b))) [] l
  = l'.
Proof.
  intros Hnd Hperm.
  apply (StronglySorted_unique_strong
           (λ a b, position (key <$> l') (key a)
                   ≤ position (key <$> l') (key b))).
  - intros a b Ha Hb Hab Hba. apply (position_inj l'); [done| |done|lia].
    by rewrite sort_Permutation, Hperm in Ha.
  - apply (sort_sorted (λ a, position (key <$> l') (key a))).
  - by apply position_sorted.
  - by rewrite sort_Permutation.
Qed.

End Adequacy.

(** The model leaves the order of emission to the server: every order of
    the groups of a stage, whose keys differ, is the order of some rank. *)
Lemma emitOrder_any_order (l l' : list (gmap string Value)) :
  NoDup ((λ m, default VNull (m !! "_id")) <$> l') → l ≡ₚ l' →
  ∃ emitRank, emitOrder emitRank l = l'.
Proof.
  intros Hnd Hperm.
  exists (position ((λ m, default VNull (m !! "_id")) <$> l')).
  by apply (sort_to_order (λ m, default VNull (m !! "_id"))).
Qed.


(** A selection that lies within a part of the list can be made on that
    part. *)
Lemma filter_restrict {A} (P : A → Prop) `{!∀ x, Decision (P x)}
    (sub l : list A) :
  sub `sublist_of` l → NoDup l → (∀ x, x ∈ l → P x → x ∈ sub) →
  base.filter P l = base.filter P sub.
Proof.
  induction 1 as [|x sub l Hsub IH|x sub l Hsub IH]; intros Hnd Hin.
  - done.
  - apply NoDup_cons in Hnd as [Hx Hnd].
    rewrite !filter_cons. rewrite IH; [done..|].
    intros y Hy Hp.
    assert (y ∈ x :: sub) as [Heq|?]%elem_of_cons
      by (apply Hin; [by right | done]); [|done].
    by subst y.
  - apply NoDup_cons in Hnd as [Hx Hnd].
    rewrite filter_cons_False.
    + apply IH; [done|]. intros y Hy Hp. apply Hin; by try right.
    + intros Hp. apply Hx. eapply elem_of_sublist; [|exact Hsub].
      apply Hin; [left | done].
Qed.

(** Fetching by identifier documents of the list yields these documents,
    in some order. *)
Lemma filter_ids_Permutation (ch l : list Document) :
  NoDup (_id <$> l) → NoDup (_id <$> ch) → ch ⊆ l →
  base.filter (λ d, _id d ∈ _id <$> ch) l ≡ₚ ch.
Proof.
  intros Hl Hch Hsub. apply NoDup_Permutation.
  - apply NoDup_filter. by eapply NoDup_fmap_1.
  - by eapply NoDup_fmap_1.
  - intros x. rewrite list_elem_of_filter. split.
    + intros [(y & Heq & Hy)%list_elem_of_fmap Hx].
      assert (x = y) as ->; [|done].
      apply (NoDup_fmap_1 _id) in Hl as Hl'.
      destruct (list_elem_of_lookup_1 _ _ Hx) as [i Hi].
      destruct (list_elem_of_lookup_1 _ _ (Hsub _ Hy)) as [j Hj].
      assert (i = j) as ->.
      { eapply NoDup_lookup; [exact Hl| |];
          rewrite list_lookup_fmap; [by rewrite Hi | by rewrite Hj, Heq]. }
      congruence.
    + intros Hx. split; [by apply list_elem_of_fmap_2 | by apply Hsub].
Qed.

Lemma filter_none {A} (P : A → Prop) `{!∀ x, Decision (P x)} (l : list A) :
  (∀ x, x ∈ l → ¬ P x) → base.filter P l = [].
Proof.
  induction l as [|x l IH]; [done|]. intros Hno.
  rewrite filter_cons_False by apply Hno, list_elem_of_here.
  apply IH. intros y Hy. by apply Hno, list_elem_of_further.
Qed.




(** ** Go integers *)

Lemma wrap64_small z : - 2 ^ 63 ≤ z < 2 ^ 63 → wrap64 z = z.
Proof. intros Hz. unfold wrap64. rewrite Z.mod_small; lia. Qed.

(** The cutoff of the expiry sweep, [time.Now().Add(-ttl).UnixMilli()]. *)
Lemma UnixMilli_Add now ttl :
  0 ≤ now < 2 ^ 63 → - 2 ^ 63 < ttl < 2 ^ 63 →
  UnixMilli (Add now (wrap64 (- ttl))) = (now - ttl) / 1000000.
Proof.
  intros Hnow Httl. unfold UnixMilli, Add.
  rewrite (wrap64_small (- ttl)) by lia.
  replace (now + - ttl) with (now - ttl) by lia.
  apply wrap64_small.
  change (2 ^ 63) with 9223372036854775808 in *.
  Z.div_mod_to_equations. lia.
Qed.
(** ** The store *)

Section StoreFacts.

Variable regexMatch : string → string → string → bool.
Variable regexValid : string → string → bool.
Variable emitRank : Value → Z.

(** *** Group documents *)

Lemma groupDoc_id key firsts d :
  groupDoc key firsts d !! "_id" = Some (fieldOrNull d key).
Proof. unfold groupDoc. simpl. apply lookup_insert_eq. Qed.

Lemma groupDoc_created d : groupDoc "created_at" [] d !! "created" = None.
Proof. unfold groupDoc. simpl. by rewrite lookup_insert_ne. Qed.

Lemma groupDoc_object_id d :
  groupDoc "row_id" [("object_id", "_id")] d !! "object_id" = Some (VOid (_id d)).
Proof.
  unfold groupDoc. simpl. rewrite lookup_insert_ne by done.
  apply lookup_insert_eq.
Qed.

Lemma groupDoc_size d : base.size (groupDoc "created_at" [] d) = 1%nat.
Proof.
  unfold groupDoc. simpl.
  by rewrite map_size_insert_None, map_size_empty by apply lookup_empty.
Qed.

Lemma groupFrom_elem seen key firsts l m :
  m ∈ groupFrom seen key firsts l → ∃ d, d ∈ l ∧ m = groupDoc key firsts d.
Proof.
  revert seen. induction l as [|d l IH]; intros seen; simpl.
  - by intros ?%elem_of_nil.
  - case_bool_decide.
    + intros (d' & ? & ?)%IH. exists d'. split; [by right | done].
    + intros [->|(d' & ? & ?)%IH]%elem_of_cons.
      * exists d. split; [by left | done].
      * exists d'. split; [by right | done].
Qed.

(** Whatever the order of emission, the groups emitted are the groups. *)
Lemma groupStage_Permutation key firsts l :
  groupStage emitRank key firsts l ≡ₚ groupFrom [] key firsts l.
Proof. apply sort_Permutation. Qed.

Lemma groupStage_elem key firsts l m :
  m ∈ groupStage emitRank key firsts l →
  ∃ d, d ∈ l ∧ m = groupDoc key firsts d.
Proof. rewrite groupStage_Permutation. apply groupFrom_elem. Qed.

(** Sorting the timestamp groups by ["created"], a field no group document
    has, leaves them as they are. *)
Lemma sort_created l :
  sortStage "created" 1 (groupStage emitRank "created_at" [] l)
  = groupStage emitRank "created_at" [] l.
Proof.
  unfold sortStage. apply sort_indifferent.
  intros x y (dx & _ & ->)%groupStage_elem (dy & _ & ->)%groupStage_elem.
  by rewrite !groupDoc_created.
Qed.

(** The first aggregation answers with the group of some stored document:
    which one is for the server to choose. *)
Lemma latestTimestamp_some c m0 :
  docs c ≠ [] →
  ∃ d, d ∈ docs c
       ∧ latestTimestamp emitRank c m0 = (groupDoc "created_at" [] d, None).
Proof.
  intros Hne. unfold latestTimestamp. rewrite sort_created.
  destruct (groupStage emitRank "created_at" [] (docs c)) as [|m out] eqn:Hg.
  - exfalso. apply (f_equal length) in Hg.
    rewrite groupStage_Permutation in Hg.
    destruct (docs c) as [|d l]; [done|]. simpl in Hg.
    try rewrite bool_decide_eq_false_2 in Hg by apply not_elem_of_nil.
    done.
  - destruct (groupStage_elem "created_at" [] (docs c) m) as (d & Hd & ->).
    { rewrite Hg. apply list_elem_of_here. }
    by exists d.
Qed.

Lemma latestTimestamp_nil c m0 :
  docs c = [] →
  latestTimestamp emitRank c m0 = (m0, Some ErrNoSuchDocuments).
Proof. intros Hd. unfold latestTimestamp. by rewrite Hd. Qed.

(** The [$group] by ["row_id"] opens its groups at the first-inserted
    document of each [rowId]. *)
Lemma groupFrom_rows seen earlier firsts l :
  (∀ r, VStr r ∈ seen ↔ r ∈ rowOf <$> earlier) →
  groupFrom seen "row_id" firsts l
  = groupDoc "row_id" firsts <$> firstPerRow earlier l.
Proof.
  revert seen earlier. induction l as [|d l IH]; intros seen earlier Hinv.
  - done.
  - simpl. change (fieldOrNull d "row_id") with (VStr (rowOf d)).
    rewrite (bool_decide_ext _ _ (Hinv (rowOf d))).
    case_bool_decide as Hd.
    + apply IH. intros r. rewrite Hinv, fmap_app, elem_of_app. simpl.
      rewrite list_elem_of_singleton. split; [by left|].
      intros [?| ->]; done.
    + rewrite fmap_cons. f_equal. apply IH. intros r.
      rewrite elem_of_cons, Hinv, fmap_app, elem_of_app. simpl.
      rewrite list_elem_of_singleton. split.
      * intros [[= ->]|?]; [by right | by left].
      * intros [?| ->]; [by right | by left].
Qed.

(** The groups the stage emits are those of the representatives, in the
    order of emission. *)
Lemma groupStage_rows firsts l :
  groupStage emitRank "row_id" firsts l
  = groupDoc "row_id" firsts <$> emitted emitRank (firstPerRow [] l).
Proof.
  unfold groupStage.
  rewrite (groupFrom_rows [] []) by (intros r; simpl; by rewrite !elem_of_nil).
  apply sort_fmap. intros a b. by rewrite !groupDoc_id.
Qed.

Lemma emitted_Permutation l : emitted emitRank l ≡ₚ l.
Proof. apply sort_Permutation. Qed.

(** *** Filters *)

Lemma filterOk_created f ts :
  filterOk regexValid f → filterOk regexValid (<["created_at" := CEq ts]> f).
Proof. intros Hf. by apply map_Forall_insert_2. Qed.

Lemma filterOk_ids ids :
  filterOk regexValid ({["_id" := CIn (Some ids)]} : gmap string Cond).
Proof. by apply map_Forall_singleton. Qed.

Lemma rejection_ids_nil :
  rejection ({["_id" := CIn None]} : gmap string Cond) = errInNeedsArray.
Proof.
  unfold rejection. rewrite decide_False; [done|].
  by intros [=]%map_Forall_singleton.
Qed.

Lemma matches_ids ids d :
  matches regexMatch {["_id" := CIn (Some ids)]} d ↔ VOid (_id d) ∈ ids.
Proof.
  unfold matches. rewrite map_Forall_singleton. simpl.
  induction ids as [|v ids IH]; simpl.
  - split; [done | by intros ?%elem_of_nil].
  - rewrite orb_true_iff, IH, elem_of_cons, bool_decide_eq_true. done.
Qed.

Lemma oid_elem (i : ObjectID) (l : list Document) :
  VOid i ∈ (λ d, VOid (_id d)) <$> l ↔ i ∈ _id <$> l.
Proof.
  rewrite !list_elem_of_fmap. split.
  - intros (d & [= ->] & Hd). by exists d.
  - intros (d & -> & Hd). by exists d.
Qed.

Lemma matches_created f ts d :
  matches regexMatch (<["created_at" := CEq (VInt ts)]> f) d → CreatedAt (body d) = ts.
Proof.
  intros Hm%map_Forall_insert_1_1. simpl in Hm.
  apply bool_decide_eq_true in Hm. congruence.
Qed.

(** *** Representatives *)

Lemma firstPerRow_sublist earlier l : firstPerRow earlier l `sublist_of` l.
Proof.
  revert earlier. induction l as [|d l IH]; intros earlier; simpl; [done|].
  case_bool_decide; [apply sublist_cons | apply sublist_skip]; apply IH.
Qed.





Lemma representatives_sublist c ts filter :
  representatives regexMatch c ts filter `sublist_of` docs c.
Proof. etrans; [apply firstPerRow_sublist | apply sublist_filter]. Qed.



(** *** The snapshot served *)

Lemma currentSnapshot_inv c ts :
  currentSnapshot emitRank c = Some ts →
  ∃ d, d ∈ docs c ∧ CreatedAt (body d) = ts
       ∧ latestTimestamp emitRank c ∅ = (groupDoc "created_at" [] d, None).
Proof.
  unfold currentSnapshot. destruct (decide (docs c = [])) as [Hd|Hd].
  - by rewrite (latestTimestamp_nil _ _ Hd).
  - destruct (latestTimestamp_some c ∅ Hd) as (d & Hin & Hlast).
    rewrite Hlast, groupDoc_id. intros [= <-]. by exists d.
Qed.

(** A store that holds a document has a snapshot served. *)
Lemma currentSnapshot_some c :
  docs c ≠ [] → ∃ ts, currentSnapshot emitRank c = Some ts.
Proof.
  intros Hd. destruct (latestTimestamp_some c ∅ Hd) as (d & Hin & Hlast).
  exists (CreatedAt (body d)). unfold currentSnapshot.
  by rewrite Hlast, groupDoc_id.
Qed.

(** *** One page *)

(** What [FindServers] answers once the first step has settled on the
    snapshot [ts]: [$skip] and [$limit] cut a slice out of the
    representative set as the server emits it, and the page holds the
    documents of that slice, in natural order; an empty slice makes the
    final [Find] fail, its ["$in"] operand being a nil slice. *)
Lemma FindServers_served c page size sort filter ts :
  wf c → filterOk regexValid (<["created_at" := CEq (VInt ts)]> filter) →
  currentSnapshot emitRank c = Some ts →
  let page' := if page <=? 0 then 1 else page in
  let size' := if size <=? 0 then 10 else size in
  let k := wrap64 ((page' - 1) * size') in
  let reps := representatives regexMatch c ts filter in
  let chunk :=
    take (Z.to_nat size') (drop (Z.to_nat k) (emitted emitRank reps)) in
  let total := Z.of_nat (length (docs c)) in
  FindServers regexMatch regexValid emitRank c page size sort filter
  = if k <? 0 then ({| Total := total; List := [] |}, Some errSkipNegative)
    else match chunk with
         | [] => ({| Total := total; List := [] |}, Some errInNeedsArray)
         | _ =>
             ({| Total := total;
                 List := body <$> base.filter (λ d, _id d ∈ _id <$> chunk)
                                    reps |},
              None)
         end.
Proof.
  intros [Hnd _] Hf (d0 & Hd0 & Hts0 & Hlast)%currentSnapshot_inv
    page' size' k reps chunk total.
  unfold FindServers. rewrite Hlast.
  rewrite decide_False by (rewrite groupDoc_size; lia).
  rewrite groupDoc_id. simpl default.
  change (fieldOrNull d0 "created_at") with (VInt (CreatedAt (body d0))).
  rewrite Hts0.
  unfold matchStage. rewrite decide_True by done.
  rewrite groupStage_rows.
  fold page' size' k.
  unfold skipStage. destruct (k <? 0); [done|].
  unfold limitStage.
  assert (0 < size') as Hs by (unfold size'; case (Z.leb_spec size 0); lia).
  rewrite (proj2 (Z.leb_gt size' 0)) by lia.
  rewrite <- fmap_drop, <- fmap_take.
  fold (listings regexMatch c ts filter).
  fold (representatives regexMatch c ts filter). fold reps chunk.
  unfold findAll.
  destruct chunk as [|x ch] eqn:Hch.
  { simpl. rewrite decide_False by by intros [=]%map_Forall_singleton.
    by rewrite rejection_ids_nil. }
  rewrite fmap_cons. rewrite <- fmap_cons, <- list_fmap_compose.
  rewrite decide_True by apply filterOk_ids.
  simpl Total. do 3 f_equal.
  rewrite (list_filter_iff _ _ _ (matches_ids _)).
  erewrite (list_fmap_ext _ (λ d, VOid (_id d)) (x :: ch))
    by (intros i y _; simpl; by rewrite groupDoc_object_id).
  rewrite (list_filter_iff _ (λ d, _id d ∈ _id <$> x :: ch))
    by (intros d; apply oid_elem).
  assert (x :: ch ⊆ reps) as Hsub.
  { rewrite <- Hch. unfold chunk. intros d Hd.
    apply subseteq_take, subseteq_drop in Hd.
    by rewrite emitted_Permutation in Hd. }
  apply filter_restrict.
  - apply representatives_sublist.
  - by eapply NoDup_fmap_1.
  - intros d Hd (y & Heq & Hy)%list_elem_of_fmap.
    assert (d = y) as ->; [|by apply Hsub].
    assert (y ∈ docs c) as Hy'.
    { eapply elem_of_sublist; [by apply Hsub|].
      apply representatives_sublist. }
    destruct (list_elem_of_lookup_1 _ _ Hd) as [i Hi].
    destruct (list_elem_of_lookup_1 _ _ Hy') as [j Hj].
    assert (i = j) as ->; [|congruence].
    eapply NoDup_lookup; [exact Hnd| |];
      rewrite list_lookup_fmap; [by rewrite Hi | by rewrite Hj, Heq].
Qed.

(** A filter the server rejects fails the query at the [$match] stage,
    after the total was set. *)
Lemma FindServers_rejected c page size sort filter ts :
  currentSnapshot emitRank c = Some ts →
  ¬ filterOk regexValid (<["created_at" := CEq (VInt ts)]> filter) →
  FindServers regexMatch regexValid emitRank c page size sort filter
  = ({| Total := Z.of_nat (length (docs c)); List := [] |},
     Some (rejection (<["created_at" := CEq (VInt ts)]> filter))).
Proof.
  intros (d0 & Hd0 & Hts0 & Hlast)%currentSnapshot_inv Hf.
  unfold FindServers. rewrite Hlast.
  rewrite decide_False by (rewrite groupDoc_size; lia).
  rewrite groupDoc_id. simpl default.
  change (fieldOrNull d0 "created_at") with (VInt (CreatedAt (body d0))).
  rewrite Hts0.
  unfold matchStage. by rewrite decide_False by done.
Qed.

(** A query that succeeds was sent a filter the server accepts. *)
Lemma FindServers_accepted c page size sort filter ts res :
  currentSnapshot emitRank c = Some ts →
  FindServers regexMatch regexValid emitRank c page size sort filter
  = (res, None) →
  filterOk regexValid (<["created_at" := CEq (VInt ts)]> filter).
Proof.
  intros Hts Hfind.
  destruct (decide (filterOk regexValid
                      (<["created_at" := CEq (VInt ts)]> filter)))
    as [Hf|Hf]; [done|].
  by rewrite (FindServers_rejected _ _ _ _ _ _ Hts Hf) in Hfind.
Qed.



(** *** All pages *)


Lemma slice_NoDup c ts filter s i :
  wf c →
  NoDup (_id <$> slice emitRank (representatives regexMatch c ts filter) s i).
Proof.
  intros [Hnd _]. unfold slice.
  eapply sublist_NoDup;
    [|apply fmap_sublist; etrans; [apply sublist_take | apply sublist_drop]].
  rewrite emitted_Permutation.
  eapply sublist_NoDup; [exact Hnd|].
  apply fmap_sublist, representatives_sublist.
Qed.

(** A query that succeeds has settled on a snapshot. *)
Lemma FindServers_success_snapshot c page size sort filter res :
  FindServers regexMatch regexValid emitRank c page size sort filter
  = (res, None) →
  ∃ ts, currentSnapshot emitRank c = Some ts.
Proof.
  intros Hfind. destruct (decide (docs c = [])) as [Hd|Hd].
  - unfold FindServers in Hfind.
    by rewrite (latestTimestamp_nil _ _ Hd) in Hfind.
  - by apply currentSnapshot_some.
Qed.

(** Every record of a page is a listing of the snapshot served that
    satisfies the filter. *)
Lemma FindServers_items_listed c page size sort filter ts res :
  wf c → currentSnapshot emitRank c = Some ts →
  FindServers regexMatch regexValid emitRank c page size sort filter
  = (res, None) →
  ∀ s, s ∈ List res → ∃ d, d ∈ listings regexMatch c ts filter ∧ body d = s.
Proof.
  intros Hwf Hts Hfind.
  pose proof (FindServers_accepted _ _ _ _ _ _ _ Hts Hfind) as Hf.
  revert Hfind.
  rewrite (FindServers_served _ _ _ _ _ _ Hwf Hf Hts). cbv zeta.
  case (_ <? 0); [done|].
  destruct (take _ _) as [|x ch]; [done|].
  intros [= <-] s. cbn [List].
  intros (d & -> & [_ Hin]%list_elem_of_filter)%list_elem_of_fmap.
  exists d. split; [|done].
  eapply elem_of_sublist; [exact Hin|]. apply firstPerRow_sublist.
Qed.

(** *** The remaining arguments *)

(** C10: the [sort] argument has no effect on the answer of [FindServers]:
    it is defaulted to ["name"] and never read again. *)
Theorem FindServers_sort_unused c page size sort1 sort2 filter :
  FindServers regexMatch regexValid emitRank c page size sort1 filter
  = FindServers regexMatch regexValid emitRank c page size sort2 filter.
Proof. reflexivity. Qed.

(** C4, as the code behaves: on a collection without documents the first
    aggregation has nothing to decode, [One] reports [ErrNoSuchDocuments],
    and [FindServers] returns the empty page with that error, whatever the
    page, size, sort key and filter; the branch on [len(lastTs) == 0] is
    not reached. *)
Theorem FindServers_empty_store_error n page size sort filter :
  FindServers regexMatch regexValid emitRank {| docs := []; nextId := n |}
    page size sort filter
  = ({| Total := 0; List := [] |}, Some ErrNoSuchDocuments).
Proof. reflexivity. Qed.

(** Whenever the collection holds a document, the total reported is the
    size of the whole collection. *)
Lemma FindServers_total c page size sort filter :
  wf c → filterOk regexValid filter → docs c ≠ [] →
  Total (FindServers regexMatch regexValid emitRank c page size sort filter).1
  = Z.of_nat (length (docs c)).
Proof.
  intros Hwf Hf Hne. destruct (currentSnapshot_some c Hne) as [ts Hts].
  pose proof (filterOk_created _ (VInt ts) Hf) as Hf'.
  rewrite (FindServers_served _ _ _ _ _ _ Hwf Hf' Hts). cbv zeta.
  case (_ <? 0); [done|]. by destruct (take _ _).
Qed.

End StoreFacts.

(** ** All the pages of a query *)

Section Paging.

Variable regexMatch : string → string → string → bool.
Variable regexValid : string → string → bool.

(** The order in which the server emits the groups while it answers the
    call for each page. *)
Variable ranks : nat → Value → Z.


End Paging.

(** ** The handler *)

Section HandlerFacts.

Variable regexMatch : string → string → string → bool.
Variable regexValid : string → string → bool.
Variable emitRank : Value → Z.
Variable GetCapableRegions : error + list string.
Variable GetLobbyServers : string → Z → error + list lobbyapi.Server.
Variable ExplicitPlatforms : list Z.
Variable PlatformDisplayName : string → Z → string.
Variable geoipCity : string → error + CityInfo.

Abbreviation runUnit :=
  (fanoutUnit GetLobbyServers PlatformDisplayName geoipCity).
Abbreviation finishUnit :=
  (finish GetLobbyServers PlatformDisplayName geoipCity).
Abbreviation collect :=
  (GetAllServersFromLobby GetCapableRegions GetLobbyServers ExplicitPlatforms
     PlatformDisplayName geoipCity).
Abbreviation sync :=
  (SyncLocalServers GetCapableRegions GetLobbyServers ExplicitPlatforms
     PlatformDisplayName geoipCity).

(** *** Queries *)

(** An option that is set adds its entry to [queryM]; one that is not set
    leaves the map as it is. *)
Lemma lookup_optional_ne (P : Prop) `{!Decision P} (m : gmap string Cond)
    (k k' : string) (c : Cond) :
  k ≠ k' → (if decide P then <[k := c]> m else m) !! k' = m !! k'.
Proof. intros Hne. case_decide; [by apply lookup_insert_ne | done]. Qed.

Lemma nullIn_optional (P : Prop) `{!Decision P} (m : gmap string Cond)
    (k : string) (c : Cond) :
  nullIn c = false → map_Forall (λ _ c', nullIn c' = false) m →
  map_Forall (λ _ c', nullIn c' = false) (if decide P then <[k := c]> m else m).
Proof. intros Hc Hm. case_decide; [by apply map_Forall_insert_2 | done]. Qed.

(** The options other than the password flag reach the filter as asked;
    for one, the pvp flag: every server returned has it as requested. *)
Lemma GetServersByPage_pvp c options res :
  wf c → Options.PvpEnabled options ≠ 0 →
  GetServersByPage regexMatch regexValid emitRank c options = (res, None) →
  ∀ r, r ∈ List res → Resp.Pvp r = (0 <? Options.PvpEnabled options).
Proof.
  intros Hwf Hpvp. unfold GetServersByPage.
  set (queryM := if decide (Options.Tags options ≠ "" ∧ _) then _ else _).
  assert (queryM !! "pvp_enabled"
          = Some (CEq (VBool (0 <? Options.PvpEnabled options)))) as Hq.
  { unfold queryM. rewrite !lookup_optional_ne by done.
    rewrite decide_True by done. apply lookup_insert_eq. }
  destruct (FindServers _ _ _ _ _ _ _ _) as [result [err|]] eqn:Hfind;
    [done|].
  intros [= <-] r. cbn [List]. unfold lobbyRepo2Resp.
  intros (s & -> & Hs)%list_elem_of_fmap.
  change (PvpEnabled (Server s) = (0 <? Options.PvpEnabled options)).
  destruct (FindServers_success_snapshot _ _ _ _ _ _ _ _ _ Hfind) as [ts Hts].
  destruct (FindServers_items_listed _ _ _ _ _ _ _ _ _ _ Hwf Hts Hfind s Hs)
    as (d & [Hm _]%list_elem_of_filter & <-).
  pose proof (Hm "pvp_enabled"
                (CEq (VBool (0 <? Options.PvpEnabled options)))) as Hholds.
  rewrite lookup_insert_ne in Hholds by done.
  specialize (Hholds Hq). simpl in Hholds.
  apply bool_decide_eq_true in Hholds. injection Hholds as Heq. exact Heq.
Qed.

(** *** Expiry *)

Lemma matches_lte e d :
  matches regexMatch {["created_at" := CLte (VInt e)]} d
  ↔ CreatedAt (body d) ≤ e.
Proof.
  unfold matches. rewrite map_Forall_singleton. simpl. apply Z.leb_le.
Qed.

(** C9: [ClearExpiredServers] deletes exactly the documents created at or
    before the cutoff [now - ttl] (in milliseconds) and returns the number
    deleted and the number left in the collection; of three documents
    created one millisecond before, at, and one millisecond after the
    cutoff, the first two go and the third stays. *)
Theorem ClearExpiredServers_cutoff now ttl :
  0 ≤ now < 2 ^ 63 → - 2 ^ 63 < ttl < 2 ^ 63 →
  let cutoff := (now - ttl) / 1000000 in
  let expired d := CreatedAt (body d) ≤ cutoff in
  (∀ c,
     ClearExpiredServers regexMatch regexValid c now ttl
     = ({| docs := base.filter (λ d, ¬ expired d) (docs c);
           nextId := nextId c |},
        (Z.of_nat (length (base.filter expired (docs c))),
         Z.of_nat (length (base.filter (λ d, ¬ expired d) (docs c))),
         None)))
  ∧ (∀ d1 d2 d3 n,
       CreatedAt (body d1) = cutoff - 1 →
       CreatedAt (body d2) = cutoff →
       CreatedAt (body d3) = cutoff + 1 →
       ClearExpiredServers regexMatch regexValid {| docs := [d1; d2; d3]; nextId := n |}
         now ttl
       = ({| docs := [d3]; nextId := n |}, (2, 1, None))).
Proof.
  intros Hnow Httl cutoff expired.
  assert (∀ c,
     ClearExpiredServers regexMatch regexValid c now ttl
     = ({| docs := base.filter (λ d, ¬ expired d) (docs c);
           nextId := nextId c |},
        (Z.of_nat (length (base.filter expired (docs c))),
         Z.of_nat (length (base.filter (λ d, ¬ expired d) (docs c))),
         None))) as Hall.
  { intros c. unfold ClearExpiredServers, RemoveServers, removeAll.
    rewrite UnixMilli_Add by done. fold cutoff.
    rewrite decide_True by by apply map_Forall_singleton.
    unfold estimatedCount. cbn [docs].
    rewrite (list_filter_iff (matches regexMatch _) expired)
      by apply matches_lte.
    rewrite (list_filter_iff (λ d, ¬ matches _ _ d) (λ d, ¬ expired d))
      by (intros d; by rewrite matches_lte).
    done. }
  split; [done|].
  intros d1 d2 d3 n H1 H2 H3. rewrite Hall. cbn [docs nextId].
  rewrite !filter_cons, !filter_nil. unfold expired.
  rewrite !decide_False, !decide_True by lia. 
  rewrite ?decide_True, ?decide_False by lia. done.
Qed.

(** *** The fan-out *)

(** Once a unit has failed, the error of the group stays what it is. *)
Lemma finish_error_kept ts order servers err :
  (foldl (finishUnit ts) (servers, Some err) order).2 = Some err.
Proof.
  revert servers. induction order as [|u order IH]; intros servers; [done|].
  simpl. unfold finish at 2. by destruct (runUnit ts u) as [l [e|]].
Qed.

(** The error of the group is the one of the unit that fails first. *)
Lemma finish_first_error ts l1 u l2 servers err :
  Forall (λ v, (runUnit ts v).2 = None) l1 →
  (runUnit ts u).2 = Some err →
  (foldl (finishUnit ts) (servers, None) (l1 ++ u :: l2)).2 = Some err.
Proof.
  intros Hok Hu. revert servers.
  induction Hok as [|v l1 Hv Hok IH]; intros servers; simpl.
  - unfold finish at 2. destruct (runUnit ts u) as [l e]. simpl in Hu.
    subst e. apply finish_error_kept.
  - unfold finish at 2. destruct (runUnit ts v) as [l e]. simpl in Hv.
    subst e. apply IH.
Qed.

Lemma first_failure {A} (P : A → Prop) `{!∀ x, Decision (P x)} (l : list A) :
  Exists P l →
  ∃ l1 x l2, l = l1 ++ x :: l2 ∧ Forall (λ y, ¬ P y) l1 ∧ P x.
Proof.
  induction l as [|y l IH]; intros Hex; [by apply Exists_nil in Hex|].
  destruct (decide (P y)) as [Hy|Hy].
  - by exists [], y, l.
  - apply Exists_cons in Hex as [?|Hex]; [done|].
    destruct (IH Hex) as (l1 & x & l2 & -> & Hl1 & Hx).
    exists (y :: l1), x, l2. by repeat constructor.
Qed.

(** C5: when one of the units fails, [GetAllServersFromLobby] returns the
    error of the unit that failed first, with no record at all, and
    [SyncLocalServers] returns that error and leaves the collection as it
    was. *)
Theorem fanout_first_error now limit order regions u :
  GetCapableRegions = inr regions →
  order ≡ₚ units ExplicitPlatforms regions →
  limit ≠ 0 →
  u ∈ units ExplicitPlatforms regions →
  (runUnit (UnixMilli now) u).2 ≠ None →
  ∃ l1 first l2 err,
    order = l1 ++ first :: l2
    ∧ Forall (λ v, (runUnit (UnixMilli now) v).2 = None) l1
    ∧ (runUnit (UnixMilli now) first).2 = Some err
    ∧ collect now limit order = Some ([], Some err)
    ∧ ∀ c, sync c now limit order = Some (c, (0, Some err)).
Proof.
  intros Hregions Hperm Hlimit Hu Hfail.
  set (ts := UnixMilli now) in *.
  destruct (first_failure (λ v, (runUnit ts v).2 ≠ None) order)
    as (l1 & first & l2 & Horder & Hl1 & Hfirst).
  { apply Exists_exists. exists u. split; [by rewrite Hperm | done]. }
  destruct ((runUnit ts first).2) as [err|] eqn:Herr; [|done].
  assert (Forall (λ v, (runUnit ts v).2 = None) l1) as Hok.
  { eapply Forall_impl; [exact Hl1|]. intros v Hv. simpl in Hv.
    by destruct ((runUnit ts v).2); [destruct Hv|]. }
  assert (collect now limit order = Some ([], Some err)) as Hcollect.
  { unfold GetAllServersFromLobby. rewrite Hregions.
    rewrite decide_False by (intros [? _]; done). fold ts.
    pose proof (finish_first_error ts l1 first l2 [] err Hok Herr) as Hrun.
    rewrite <- Horder in Hrun.
    destruct (foldl _ _ order) as [servers e]. simpl in Hrun. by subst e. }
  exists l1, first, l2, err. repeat split; try done.
  intros c. unfold SyncLocalServers. by rewrite Hcollect.
Qed.

(** *** The snapshot timestamp *)

Lemma processLoop_createdAt servers region ts ans :
  Forall (λ s, CreatedAt s = ts) ans →
  Forall (λ s, CreatedAt s = ts)
    (processLoop PlatformDisplayName geoipCity servers region ts ans).1.
Proof.
  revert ans. induction servers as [|server rest IH]; intros ans Hans; [done|].
  simpl. destruct (geoipCity (Address server)) as [err|city]; [constructor|].
  apply IH. apply Forall_app. split; [done|]. by repeat constructor.
Qed.

Lemma unit_createdAt ts u : Forall (λ s, CreatedAt s = ts) (runUnit ts u).1.
Proof.
  unfold fanoutUnit. destruct (GetLobbyServers u.1 u.2) as [err|[|s l]];
    [constructor..|].
  unfold processLobbyServer.
  pose proof (processLoop_createdAt (s :: l) u.1 ts [] (Forall_nil_2 _)) as Hp.
  destruct (processLoop _ _ _ _ _ _) as [out [err|]]; [constructor | done].
Qed.

Lemma finish_createdAt ts order st :
  Forall (λ s, CreatedAt s = ts) st.1 →
  Forall (λ s, CreatedAt s = ts) (foldl (finishUnit ts) st order).1.
Proof.
  revert st. induction order as [|u order IH]; intros st Hst; [done|].
  simpl. apply IH. unfold finish.
  pose proof (unit_createdAt ts u) as Hu.
  destruct (runUnit ts u) as [l [err|]]; [done|].
  simpl. apply Forall_app. by split.
Qed.

Lemma body_imap (f : nat → ObjectID) (l : list LobbyServer) :
  body <$> imap (λ i s, {| _id := f i; body := s |}) l = l.
Proof.
  revert f. induction l as [|s l IH]; intros f; simpl; [done|].
  f_equal. apply (IH (f ∘ S)).
Qed.

(** C6: every record of a successful [GetAllServersFromLobby] carries the
    one timestamp read from the clock before the fan-out, and so does every
    document a successful [SyncLocalServers] adds to the collection. *)
Theorem collect_single_timestamp now limit order servers :
  collect now limit order = Some (servers, None) →
  Forall (λ s, CreatedAt s = UnixMilli now) servers
  ∧ ∀ c c' inserted,
      sync c now limit order = Some (c', (inserted, None)) →
      ∃ new, docs c' = docs c ++ new
             ∧ body <$> new = servers
             ∧ inserted = Z.of_nat (length servers).
Proof.
  intros Hcollect. split.
  - revert Hcollect. unfold GetAllServersFromLobby.
    destruct GetCapableRegions as [err|regions]; [done|].
    case_decide; [done|].
    pose proof (finish_createdAt (UnixMilli now) order ([], None)
                  (Forall_nil_2 _)) as Hrun.
    destruct (foldl _ _ order) as [out [err|]]; [done|].
    by intros [= <-].
  - intros c c' inserted. unfold SyncLocalServers. rewrite Hcollect.
    unfold InsertManyServers, insertMany.
    destruct servers as [|s l]; [done|].
    intros [= <- <-]. eexists. split; [done|]. split.
    + exact (body_imap (λ i, (nextId c + i)%nat) (s :: l)).
    + by rewrite length_fmap, length_imap.
Qed.

End HandlerFacts.

(** ** The code on the sample data *)

(** The scenario of four listings of which two are the same server:
    the first page reports four listings and holds three records. *)
Example scenario_four_listings :
  ∃ r1 r2 r3,
    FindServers literalRegex anyPattern inArrivalOrder fourListings 1 10
      "name" ∅
    = ({| Total := 4; List := [r1; r2; r3] |}, None)
    ∧ RowId (Server r1) = "42" ∧ RowId (Server r2) = "9"
    ∧ RowId (Server r3) = "7".
Proof. do 3 eexists. vm_compute. done. Qed.

(** C1, as the code behaves: with a snapshot at 100 and a later one at
    200 in the store, the maximum [createdAt] is 200, yet the first step
    settles on 100 and the page holds the records of the snapshot at 100,
    the server emitting the groups in the order of arrival.  Nothing in
    the pipeline selects the maximum: the snapshot served is the one whose
    group the server emits first. *)
Theorem FindServers_serves_first_snapshot
    (regexMatch : string → string → string → bool)
    (regexValid : string → string → bool) :
  maxCreatedAt twoSnapshots = Some 200
  ∧ currentSnapshot inArrivalOrder twoSnapshots = Some 100
  ∧ FindServers regexMatch regexValid inArrivalOrder twoSnapshots 1 10
      "name" ∅
    = ({| Total := 4;
          List := [sampleListing 100 (sampleServer "a" "Alpha" false);
                   sampleListing 100 (sampleServer "b" "Beta" false)] |},
       None)
  ∧ ∀ emitRank,
      currentSnapshot emitRank twoSnapshots
      = if emitRank (VInt 100) <=? emitRank (VInt 200) then Some 100
        else Some 200.
Proof.
  do 3 (split; [vm_compute; reflexivity|]).
  intros emitRank. unfold currentSnapshot, latestTimestamp.
  rewrite sort_created. unfold groupStage, emitOrder.
  set (groups := groupFrom [] "created_at" [] (docs twoSnapshots)).
  vm_compute in groups. subst groups. cbn [foldr insertBy].
  match goal with |- context [emitRank ?a <=? emitRank ?b] =>
    let a' := eval vm_compute in a in
    let b' := eval vm_compute in b in
    change a with a'; change b with b'
  end.
  destruct (emitRank (VInt 100) <=? emitRank (VInt 200));
    vm_compute; reflexivity.
Qed.

(** C3, as the code behaves: the total is the size of the collection, four
    here, while the snapshot the query serves has three documents (and the
    latest one has one).  Whichever snapshot the server's order of
    emission makes the query serve, the total is four, and no snapshot has
    four documents. *)
Theorem FindServers_total_is_collection_size
    (regexMatch : string → string → string → bool)
    (regexValid : string → string → bool) :
  currentSnapshot inArrivalOrder twoSnapshots = Some 100
  ∧ countAt twoSnapshots 100 = 3
  ∧ countAt twoSnapshots 200 = 1
  ∧ Total (FindServers regexMatch regexValid inArrivalOrder twoSnapshots 1 10
             "name" ∅).1 = 4
  ∧ (∀ emitRank,
       Total (FindServers regexMatch regexValid emitRank twoSnapshots 1 10
                "name" ∅).1 = 4)
  ∧ ∀ ts, countAt twoSnapshots ts ≤ 3.
Proof.
  do 4 (split; [vm_compute; reflexivity|]). split.
  - intros emitRank. rewrite FindServers_total; [done| | |done].
    + split; compute_done.
    + apply map_Forall_empty.
  - intros ts. unfold countAt.
    set (l := docs twoSnapshots). vm_compute in l. subst l.
    rewrite !filter_cons, filter_nil. cbn [CreatedAt body].
    repeat case_decide; simpl; lia.
Qed.

(** C2, as the code behaves: asked for servers that have a password, and
    for nothing about pvp, [GetServersByPage] filters on
    [has_password = false] and returns a server without password. *)
Theorem GetServersByPage_password_from_pvp
    (regexMatch : string → string → string → bool)
    (regexValid : string → string → bool) (emitRank : Value → Z) :
  Options.HasPassword wantPassword = 1
  ∧ ∃ r, GetServersByPage regexMatch regexValid emitRank openServer
           wantPassword
         = ({| Total := 1; List := [r] |}, None)
         ∧ Resp.HasPassword r = false.
Proof. split; [done|]. eexists. vm_compute. done. Qed.

(** C7, as the code behaves: the latest snapshot, at 200, holds one
    listing, of the server with [rowId] "c"; the page that spans the whole
    result holds no item of that [rowId], the first step having settled on
    the snapshot at 100. *)
Theorem FindServers_misses_latest_row
    (regexMatch : string → string → string → bool)
    (regexValid : string → string → bool) :
  maxCreatedAt twoSnapshots = Some 200
  ∧ rowOf <$> listings regexMatch twoSnapshots 200 ∅ = ["c"]
  ∧ ∃ res,
      FindServers regexMatch regexValid inArrivalOrder twoSnapshots 1 10
        "name" ∅ = (res, None)
      ∧ base.filter (λ s, RowId (Server s) = "c") (List res) = [].
Proof.
  split; [vm_compute; reflexivity|]. split; [vm_compute; reflexivity|].
  eexists. split; [vm_compute; reflexivity|]. vm_compute. reflexivity.
Qed.


(** ** Instances of the conditional theorems *)


Lemma ClearExpiredServers_cutoff_witness :
  0 ≤ sampleNow < 2 ^ 63
  ∧ - 2 ^ 63 < 259200000000000 < 2 ^ 63
  ∧ (let cutoff := (sampleNow - 259200000000000) / 1000000 in
     let expired d := CreatedAt (body d) ≤ cutoff in
     (∀ c,
        ClearExpiredServers literalRegex anyPattern c sampleNow 259200000000000
        = ({| docs := base.filter (λ d, ¬ expired d) (docs c);
              nextId := nextId c |},
           (Z.of_nat (length (base.filter expired (docs c))),
            Z.of_nat (length (base.filter (λ d, ¬ expired d) (docs c))),
            None)))
     ∧ (∀ d1 d2 d3 n,
          CreatedAt (body d1) = cutoff - 1 →
          CreatedAt (body d2) = cutoff →
          CreatedAt (body d3) = cutoff + 1 →
          ClearExpiredServers literalRegex anyPattern
            {| docs := [d1; d2; d3]; nextId := n |} sampleNow 259200000000000
          = ({| docs := [d3]; nextId := n |}, (2, 1, None)))).
Proof.
  assert (0 ≤ sampleNow < 2 ^ 63) as H1 by compute_done.
  assert (- 2 ^ 63 < 259200000000000 < 2 ^ 63) as H2 by compute_done.
  exact (conj H1 (conj H2
    (ClearExpiredServers_cutoff literalRegex anyPattern sampleNow 259200000000000
       H1 H2))).
Defined.

Lemma fanout_first_error_witness :
  sampleRegions = inr ["US"; "EU"]
  ∧ sampleOrder ≡ₚ units samplePlatforms ["US"; "EU"]
  ∧ 4 ≠ 0
  ∧ ("EU", 1) ∈ units samplePlatforms ["US"; "EU"]
  ∧ (fanoutUnit failingLobby sampleDisplayName sampleGeoip (UnixMilli sampleNow)
       ("EU", 1)).2 ≠ None
  ∧ ∃ l1 first l2 err,
      sampleOrder = l1 ++ first :: l2
      ∧ Forall (λ v, (fanoutUnit failingLobby sampleDisplayName sampleGeoip
                        (UnixMilli sampleNow) v).2 = None) l1
      ∧ (fanoutUnit failingLobby sampleDisplayName sampleGeoip
           (UnixMilli sampleNow) first).2 = Some err
      ∧ GetAllServersFromLobby sampleRegions failingLobby samplePlatforms
          sampleDisplayName sampleGeoip sampleNow 4 sampleOrder
        = Some ([], Some err)
      ∧ ∀ c, SyncLocalServers sampleRegions failingLobby samplePlatforms
               sampleDisplayName sampleGeoip c sampleNow 4 sampleOrder
             = Some (c, (0, Some err)).
Proof.
  assert (sampleRegions = inr ["US"; "EU"]) as H1 by reflexivity.
  assert (sampleOrder ≡ₚ units samplePlatforms ["US"; "EU"]) as H2
    by compute_done.
  assert (4 ≠ 0) as H3 by compute_done.
  assert (("EU", 1) ∈ units samplePlatforms ["US"; "EU"]) as H4
    by compute_done.
  assert ((fanoutUnit failingLobby sampleDisplayName sampleGeoip
             (UnixMilli sampleNow) ("EU", 1)).2 ≠ None) as H5
    by compute_done.
  exact (conj H1 (conj H2 (conj H3 (conj H4 (conj H5
    (fanout_first_error sampleRegions failingLobby samplePlatforms
       sampleDisplayName sampleGeoip sampleNow 4 sampleOrder
       ["US"; "EU"] ("EU", 1) H1 H2 H3 H4 H5)))))).
Defined.

Lemma collect_single_timestamp_witness :
  GetAllServersFromLobby sampleRegions sampleLobby samplePlatforms
    sampleDisplayName sampleGeoip sampleNow 4 sampleOrder
  = Some (sampleCollected, None)
  ∧ Forall (λ s, CreatedAt s = UnixMilli sampleNow) sampleCollected
  ∧ ∀ c c' inserted,
      SyncLocalServers sampleRegions sampleLobby samplePlatforms
        sampleDisplayName sampleGeoip c sampleNow 4 sampleOrder
      = Some (c', (inserted, None)) →
      ∃ new, docs c' = docs c ++ new
             ∧ body <$> new = sampleCollected
             ∧ inserted = Z.of_nat (length sampleCollected).
Proof.
  assert (GetAllServersFromLobby sampleRegions sampleLobby samplePlatforms
            sampleDisplayName sampleGeoip sampleNow 4 sampleOrder
          = Some (sampleCollected, None)) as H1 by (vm_compute; reflexivity).
  exact (conj H1
    (collect_single_timestamp sampleRegions sampleLobby samplePlatforms
       sampleDisplayName sampleGeoip sampleNow 4 sampleOrder sampleCollected
       H1)).
Defined.

(** * Further properties *)

(** ** The store, continued *)

Section StoreMore.

Variable regexMatch : string → string → string → bool.
Variable regexValid : string → string → bool.
Variable emitRank : Value → Z.

(** *** Insertion *)

Lemma InsertManyServers_nonempty c servers :
  servers ≠ [] →
  InsertManyServers c servers
  = ({| docs := docs c
                ++ imap (λ i s, {| _id := (nextId c + i)%nat; body := s |})
                     servers;
        nextId := (nextId c + length servers)%nat |},
     (Z.of_nat (length servers), None)).
Proof.
  intros Hne. unfold InsertManyServers, insertMany.
  destruct servers as [|s l]; [done|].
  by rewrite length_fmap, length_imap.
Qed.

(** *** Removal *)

Lemma filter_split_length {A} (P : A → Prop) `{!∀ x, Decision (P x)}
    (l : list A) :
  (length (base.filter P l) + length (base.filter (λ x, ¬ P x) l))%nat
  = length l.
Proof.
  induction l as [|x l IH]; [done|].
  rewrite !filter_cons. destruct (decide (P x)).
  - rewrite decide_False by tauto. simpl. lia.
  - rewrite decide_True by done. simpl. lia.
Qed.

(** X2: with a filter the server accepts, [RemoveServers] leaves exactly
    the documents that do not match, in their order; the two counts it
    returns add up to the number of documents there were; and the
    identifiers stay unique. *)
Theorem RemoveServers_partition c filter :
  wf c → filterOk regexValid filter →
  ∃ c' deleted total,
    RemoveServers regexMatch regexValid c filter = (c', (deleted, total, None))
    ∧ docs c' = base.filter (λ d, ¬ matches regexMatch filter d) (docs c)
    ∧ deleted + total = Z.of_nat (length (docs c))
    ∧ total = Z.of_nat (length (docs c'))
    ∧ wf c'.
Proof.
  intros [Hnd Hlt] Hf. unfold RemoveServers, removeAll.
  rewrite decide_True by done. unfold estimatedCount. cbn [docs].
  eexists _, _, _. split; [reflexivity|]. cbn [docs nextId].
  split; [done|]. split.
  { rewrite <- Nat2Z.inj_add. f_equal. apply filter_split_length. }
  split; [done|]. split; cbn [docs nextId].
  - eapply sublist_NoDup; [exact Hnd|]. apply fmap_sublist, sublist_filter.
  - apply Forall_forall. intros d [_ Hd]%list_elem_of_filter.
    rewrite Forall_forall in Hlt. by apply Hlt.
Qed.

(** *** Pages *)

(** X3: a page never holds more records than the page size in force, which
    is 10 when the size asked for is not positive, nor more than the total
    it reports. *)
Theorem FindServers_page_bound c page size sort filter :
  wf c → filterOk regexValid filter →
  let res :=
    (FindServers regexMatch regexValid emitRank c page size sort filter).1 in
  Z.of_nat (length (List res)) ≤ effectiveSize size
  ∧ Z.of_nat (length (List res)) ≤ Total res.
Proof.
  intros Hwf Hf.
  assert (0 < effectiveSize size) as Hpos
    by (unfold effectiveSize; case (Z.leb_spec size 0); lia).
  destruct (decide (docs c = [])) as [Hd|Hd].
  { unfold FindServers. rewrite (latestTimestamp_nil _ _ _ Hd). simpl. lia. }
  destruct (currentSnapshot_some emitRank c Hd) as [ts Hts].
  pose proof (filterOk_created _ _ (VInt ts) Hf) as Hf'.
  rewrite (FindServers_served _ _ _ _ _ _ _ _ _ Hwf Hf' Hts). cbv zeta.
  fold (effectiveSize size).
  set (reps := representatives regexMatch c ts filter).
  assert (length reps ≤ length (docs c))%nat as Hreps
    by apply sublist_length, representatives_sublist.
  case (_ <? 0); [simpl; lia|].
  match goal with |- context [take ?n (drop ?k ?e)] =>
    pose proof (length_take (drop k e) n) as Hlen;
    pose proof (length_drop e k) as Hdrop;
    pose proof (subseteq_take n (drop k e)) as Hsub;
    pose proof (sublist_take (drop k e) n) as Hsl;
    destruct (take n (drop k e)) as [|x ch]; [simpl; lia|]
  end.
  rewrite (Permutation_length (emitted_Permutation _ _)) in Hdrop.
  cbn [fst List Total]. rewrite length_fmap.
  rewrite filter_ids_Permutation.
  - split; lia.
  - eapply sublist_NoDup; [apply Hwf|].
    apply fmap_sublist, representatives_sublist.
  - eapply sublist_NoDup;
      [|apply fmap_sublist; etrans; [exact Hsl | apply sublist_drop]].
    rewrite emitted_Permutation.
    eapply sublist_NoDup; [apply Hwf|].
    apply fmap_sublist, representatives_sublist.
  - intros d Hin. apply Hsub, subseteq_drop in Hin.
    by rewrite emitted_Permutation in Hin.
Qed.

(** X4: every record of a page is a stored document of the snapshot the
    query serves, and that document meets the caller's filter merged with
    the snapshot timestamp. *)
Theorem FindServers_items_of_snapshot c page size sort filter ts res :
  wf c → filterOk regexValid filter → currentSnapshot emitRank c = Some ts →
  FindServers regexMatch regexValid emitRank c page size sort filter = (res, None) →
  ∀ s, s ∈ List res →
    CreatedAt s = ts
    ∧ ∃ d, d ∈ docs c ∧ body d = s
           ∧ matches regexMatch (<["created_at" := CEq (VInt ts)]> filter) d.
Proof.
  intros Hwf Hf Hts Hfind s Hs.
  destruct (FindServers_items_listed _ _ _ _ _ _ _ _ _ _ Hwf Hts Hfind s Hs)
    as (d & [Hm Hd]%list_elem_of_filter & <-).
  split; [by eapply matches_created|]. by exists d.
Qed.

(** X5: a page that starts at or beyond the end of the representative set
    (in particular any page of a query that matches nothing) is not
    answered with an empty list: the final [Find] is sent a nil slice
    under ["$in"], and [FindServers] returns the server's error together
    with the total. *)
Theorem FindServers_past_the_end c page size sort filter ts :
  wf c → filterOk regexValid filter → currentSnapshot emitRank c = Some ts →
  0 ≤ (effectivePage page - 1) * effectiveSize size ≤ maxInt64 →
  Z.of_nat (length (representatives regexMatch c ts filter))
  ≤ (effectivePage page - 1) * effectiveSize size →
  FindServers regexMatch regexValid emitRank c page size sort filter
  = ({| Total := Z.of_nat (length (docs c)); List := [] |},
     Some errInNeedsArray).
Proof.
  intros Hwf Hf Hts Hrange Hlen.
  pose proof (filterOk_created _ _ (VInt ts) Hf) as Hf'.
  rewrite (FindServers_served _ _ _ _ _ _ _ _ _ Hwf Hf' Hts). cbv zeta.
  fold (effectiveSize size) (effectivePage page).
  unfold maxInt64 in Hrange. rewrite wrap64_small by lia.
  rewrite (proj2 (Z.ltb_ge _ 0)) by lia.
  rewrite drop_ge
    by (rewrite (Permutation_length (emitted_Permutation _ _)); lia).
  by rewrite take_nil.
Qed.

(** X6: when the product [(page - 1) * size] overflows to a negative
    [int], [FindServers] fails with the server's error for a negative
    [$skip], and still reports the total. *)
Theorem FindServers_skip_overflow c page size sort filter :
  wf c → filterOk regexValid filter → docs c ≠ [] →
  wrap64 ((effectivePage page - 1) * effectiveSize size) < 0 →
  FindServers regexMatch regexValid emitRank c page size sort filter
  = ({| Total := Z.of_nat (length (docs c)); List := [] |},
     Some errSkipNegative).
Proof.
  intros Hwf Hf Hne Hneg.
  destruct (currentSnapshot_some emitRank c Hne) as [ts Hts].
  pose proof (filterOk_created _ _ (VInt ts) Hf) as Hf'.
  rewrite (FindServers_served _ _ _ _ _ _ _ _ _ Hwf Hf' Hts). cbv zeta.
  fold (effectiveSize size) (effectivePage page).
  by rewrite (proj2 (Z.ltb_lt _ 0)) by lia.
Qed.

(** X7: a condition on ["created_at"] in the caller's filter is replaced
    by the snapshot timestamp: the answer is the same with and without
    it. *)
Theorem FindServers_created_at_overridden c page size sort filter cond :
  FindServers regexMatch regexValid emitRank c page size sort (<["created_at" := cond]> filter)
  = FindServers regexMatch regexValid emitRank c page size sort filter.
Proof.
  unfold FindServers.
  destruct (latestTimestamp emitRank c ∅) as [lastTs [err|]]; [done|].
  case_decide; [done|]. by rewrite insert_insert_eq.
Qed.

(** *** Snapshots *)

Lemma maxCreatedAt_uniform c ts :
  docs c ≠ [] → Forall (λ d, CreatedAt (body d) = ts) (docs c) →
  maxCreatedAt c = Some ts.
Proof.
  unfold maxCreatedAt. destruct (docs c) as [|d l]; [done|].
  intros _ [Hd Hl]%Forall_cons. f_equal. rewrite Hd.
  induction Hl as [|x l Hx Hl IH]; [done|]. simpl. rewrite Hx, IH. lia.
Qed.

(** X8: on a store whose documents all carry one timestamp, a single
    snapshot, the snapshot served is the latest one and the total is the
    number of its documents. *)
Theorem single_snapshot_agrees c page size sort filter ts :
  wf c → filterOk regexValid filter → docs c ≠ [] →
  Forall (λ d, CreatedAt (body d) = ts) (docs c) →
  currentSnapshot emitRank c = Some ts
  ∧ maxCreatedAt c = Some ts
  ∧ Total (FindServers regexMatch regexValid emitRank c page size sort filter).1 = countAt c ts.
Proof.
  intros Hwf Hf Hne Hall. split; [|split].
  - destruct (currentSnapshot_some emitRank c Hne) as [ts' Hts].
    rewrite Hts. f_equal.
    apply currentSnapshot_inv in Hts as (d & Hd & <- & _).
    rewrite Forall_forall in Hall. by apply Hall.
  - by apply maxCreatedAt_uniform.
  - rewrite FindServers_total by done. unfold countAt. do 2 f_equal.
    symmetry. rewrite Forall_forall in Hall.
    clear Hne. induction (docs c) as [|x l IH]; [done|].
    rewrite filter_cons_True by (apply Hall; left). f_equal.
    apply IH. intros y Hy. apply Hall. by right.
Qed.

End StoreMore.

(** ** The handler, continued *)

(** *** Tags *)

Lemma splitComma_nonempty s : splitComma s ≠ [].
Proof.
  destruct s as [|c s]; simpl; [done|].
  destruct (Ascii.eqb c ","); [done|]. by destruct (splitComma s).
Qed.

(** [strings.Join] undoes [strings.Split]. *)
Lemma joinComma_splitComma s : joinComma (splitComma s) = s.
Proof.
  induction s as [|c s IH]; [done|]. simpl.
  destruct (Ascii.eqb_spec c ","%char) as [->|Hc].
  - pose proof (splitComma_nonempty s) as Hne.
    destruct (splitComma s) as [|w ws]; [done|].
    change (joinComma ("" :: w :: ws)) with ("," +:+ joinComma (w :: ws)).
    by rewrite IH.
  - destruct (splitComma s) as [|w ws]; [by rewrite <- IH|].
    destruct ws as [|w' ws]; simpl in *; by rewrite <- IH.
Qed.

Lemma splitComma_commaFree s : Forall (λ t, commaFree t = true) (splitComma s).
Proof.
  induction s as [|c s IH]; simpl; [by repeat constructor|].
  destruct (Ascii.eqb c ","%char) eqn:Hc; [by constructor|].
  destruct (splitComma s) as [|w ws]; [repeat constructor; simpl; by rewrite Hc|].
  apply Forall_cons in IH as [Hw Hws]. constructor; [|done].
  simpl. by rewrite Hc, Hw.
Qed.

Section HandlerMore.

Variable regexMatch : string → string → string → bool.
Variable regexValid : string → string → bool.
Variable emitRank : Value → Z.
Variable GetCapableRegions : error + list string.
Variable GetLobbyServers : string → Z → error + list lobbyapi.Server.
Variable ExplicitPlatforms : list Z.
Variable PlatformDisplayName : string → Z → string.
Variable geoipCity : string → error + CityInfo.

Abbreviation process := (processLobbyServer PlatformDisplayName geoipCity).
Abbreviation processFrom := (processLoop PlatformDisplayName geoipCity).
Abbreviation enrich := (enriched PlatformDisplayName).
Abbreviation oneUnit :=
  (fanoutUnit GetLobbyServers PlatformDisplayName geoipCity).
Abbreviation finishOne :=
  (finish GetLobbyServers PlatformDisplayName geoipCity).
Abbreviation collectAll :=
  (GetAllServersFromLobby GetCapableRegions GetLobbyServers ExplicitPlatforms
     PlatformDisplayName geoipCity).
Abbreviation syncAll :=
  (SyncLocalServers GetCapableRegions GetLobbyServers ExplicitPlatforms
     PlatformDisplayName geoipCity).

(** *** Enrichment *)

Lemma processLoop_resolved servers cities region ts ans :
  Forall2 (λ s city, geoipCity (Address s) = inr city) servers cities →
  processFrom servers region ts ans
  = (ans ++ zip_with (enrich region ts) servers cities, None).
Proof.
  intros Hall. revert ans.
  induction Hall as [|s city servers cities Hs Hall IH]; intros ans; simpl.
  - by rewrite app_nil_r.
  - rewrite Hs, IH, <- app_assoc. done.
Qed.

(** X10: when the geoip reader resolves every address, [processLobbyServer]
    returns one record per server, in the order of the input, each made
    of the server, the region, the timestamp and the city answered for its
    address. *)
Theorem processLobbyServer_resolved servers cities region ts :
  Forall2 (λ s city, geoipCity (Address s) = inr city) servers cities →
  processLobbyServer PlatformDisplayName geoipCity servers region ts
  = (zip_with (enriched PlatformDisplayName region ts) servers cities, None).
Proof. intros Hall. by apply (processLoop_resolved _ _ _ _ []). Qed.

Lemma processLoop_unresolved l1 s l2 region ts ans err :
  Forall (λ s', ∃ city, geoipCity (Address s') = inr city) l1 →
  geoipCity (Address s) = inl err →
  processFrom (l1 ++ s :: l2) region ts ans = ([], Some err).
Proof.
  intros Hl1 Hs. revert ans.
  induction Hl1 as [|s' l1 [city Hs'] Hl1 IH]; intros ans; simpl.
  - by rewrite Hs.
  - rewrite Hs'. apply IH.
Qed.

(** X11: [processLobbyServer] fails fast: at the first server whose address
    the geoip reader does not resolve it returns that error and no record,
    whatever came before and whatever follows. *)
Theorem processLobbyServer_fail_fast l1 s l2 region ts err :
  Forall (λ s', ∃ city, geoipCity (Address s') = inr city) l1 →
  geoipCity (Address s) = inl err →
  processLobbyServer PlatformDisplayName geoipCity (l1 ++ s :: l2) region ts
  = ([], Some err).
Proof. intros Hl1 Hs. by apply processLoop_unresolved. Qed.

Lemma processLoop_Forall (P : LobbyServer → Prop) servers region ts ans :
  (∀ server city, P (enrich region ts server city)) →
  Forall P ans → Forall P (processFrom servers region ts ans).1.
Proof.
  intros HP. revert ans.
  induction servers as [|server rest IH]; intros ans Hans; [done|].
  simpl. destruct (geoipCity (Address server)) as [err|city]; [constructor|].
  apply IH. apply Forall_app. split; [done|].
  constructor; [|constructor]. apply (HP server city).
Qed.

(** X12: the tag names of a processed record are the provider's tag string
    cut at its commas: joined by commas they give the string back, none
    holds a comma, and there is none exactly when the string is empty. *)
Theorem processLobbyServer_tags servers region ts :
  Forall (λ s, joinComma (TagNames s) = Tags (Server s)
               ∧ Forall (λ t, commaFree t = true) (TagNames s)
               ∧ (TagNames s = [] ↔ Tags (Server s) = ""))
    (process servers region ts).1.
Proof.
  apply processLoop_Forall; [|constructor].
  intros server city. unfold enriched. cbn [TagNames Server].
  case_decide as Ht.
  - split; [apply joinComma_splitComma|]. split; [apply splitComma_commaFree|].
    split; [by intros ?%splitComma_nonempty | done].
  - rewrite Ht. by repeat split.
Qed.

Lemma processLoop_servers servers region ts ans out :
  processFrom servers region ts ans = (out, None) →
  Server <$> out = (Server <$> ans) ++ servers.
Proof.
  revert ans. induction servers as [|server rest IH]; intros ans; simpl.
  - intros [= <-]. by rewrite app_nil_r.
  - destruct (geoipCity (Address server)) as [err|city]; [done|].
    intros ->%IH. rewrite fmap_app, <- app_assoc. done.
Qed.

Lemma processLoop_poisoned servers s region ts ans :
  s ∈ servers → (∃ err, geoipCity (Address s) = inl err) →
  ∃ err, processFrom servers region ts ans = ([], Some err).
Proof.
  intros Hs [err Herr]. revert ans.
  induction servers as [|server rest IH]; intros ans;
    [by apply elem_of_nil in Hs|].
  simpl. apply elem_of_cons in Hs as [<-|Hs].
  - rewrite Herr. by exists err.
  - destruct (geoipCity (Address server)) as [err'|city]; [by exists err'|].
    by apply IH.
Qed.

(** *** The fan-out, continued *)

Lemma unit_ok_listed ts u :
  (oneUnit ts u).2 = None →
  Server <$> (oneUnit ts u).1 = listed GetLobbyServers u.
Proof.
  unfold fanoutUnit, listed.
  destruct (GetLobbyServers u.1 u.2) as [err|[|s l]]; [done..|].
  unfold processLobbyServer.
  destruct (processLoop _ _ _ _ _ _) as [out [err|]] eqn:Hp; [done|].
  intros _. by apply processLoop_servers in Hp.
Qed.

Lemma finish_all_ok ts order servers :
  Forall (λ u, (oneUnit ts u).2 = None) order →
  foldl (finishOne ts) (servers, None) order
  = (servers ++ concat ((λ u, (oneUnit ts u).1) <$> order), None).
Proof.
  intros Hok. revert servers.
  induction Hok as [|u order Hu Hok IH]; intros servers; simpl.
  - by rewrite app_nil_r.
  - unfold finish at 2. destruct (oneUnit ts u) as [l e]. simpl in Hu.
    subst e. cbn [fst snd]. by rewrite IH, <- app_assoc.
Qed.

Lemma collect_all_ok now limit order regions :
  GetCapableRegions = inr regions → limit ≠ 0 →
  Forall (λ u, (oneUnit (UnixMilli now) u).2 = None) order →
  collectAll now limit order
  = Some (concat ((λ u, (oneUnit (UnixMilli now) u).1) <$> order), None).
Proof.
  intros Hregions Hlimit Hok. unfold GetAllServersFromLobby.
  rewrite Hregions, decide_False by (intros [? _]; done).
  by rewrite finish_all_ok.
Qed.

(** X13: when every unit succeeds, [GetAllServersFromLobby] returns the
    records of all units, each exactly once: whatever the order in which
    the units finish, the result is a rearrangement of the units' records
    taken in launch order. *)
Theorem collect_gathers_every_unit now limit order regions :
  GetCapableRegions = inr regions → limit ≠ 0 →
  order ≡ₚ units ExplicitPlatforms regions →
  Forall (λ u, (oneUnit (UnixMilli now) u).2 = None)
    (units ExplicitPlatforms regions) →
  ∃ servers,
    collectAll now limit order = Some (servers, None)
    ∧ servers ≡ₚ concat ((λ u, (oneUnit (UnixMilli now) u).1)
                           <$> units ExplicitPlatforms regions).
Proof.
  intros Hregions Hlimit Hperm Hok. eexists. split.
  - apply (collect_all_ok _ _ _ _ Hregions Hlimit). by rewrite Hperm.
  - by rewrite Hperm.
Qed.

(** X14: [SyncLocalServers] stores one document per server the lobby lists,
    duplicates included: when every listing and every geoip lookup
    succeeds and at least one server is listed, the count returned is the
    number of servers listed, and the servers of the documents added are
    the listed ones. *)
Theorem sync_stores_every_listed_server now limit order regions c :
  GetCapableRegions = inr regions → limit ≠ 0 →
  order ≡ₚ units ExplicitPlatforms regions →
  Forall (λ u, (oneUnit (UnixMilli now) u).2 = None)
    (units ExplicitPlatforms regions) →
  concat (listed GetLobbyServers <$> units ExplicitPlatforms regions) ≠ [] →
  ∃ c' new,
    syncAll c now limit order = Some (c', (Z.of_nat (length new), None))
    ∧ docs c' = docs c ++ new
    ∧ Server <$> (body <$> new)
      ≡ₚ concat (listed GetLobbyServers <$> units ExplicitPlatforms regions).
Proof.
  intros Hregions Hlimit Hperm Hok Hne.
  assert (Forall (λ u, (oneUnit (UnixMilli now) u).2 = None) order) as Hok'
    by by rewrite Hperm.
  set (servers := concat ((λ u, (oneUnit (UnixMilli now) u).1) <$> order)).
  assert (Server <$> servers = concat (listed GetLobbyServers <$> order))
    as Hservers.
  { unfold servers. clear Hperm Hne.
    induction Hok' as [|u order Hu Hok' IH]; [done|].
    rewrite !fmap_cons. simpl. by rewrite fmap_app, IH, unit_ok_listed. }
  assert (servers ≠ []) as Hs.
  { intros Hnil. rewrite Hnil in Hservers. apply Hne.
    apply Permutation_nil_r. rewrite <- Hperm. by rewrite <- Hservers. }
  unfold SyncLocalServers.
  rewrite (collect_all_ok _ _ _ _ Hregions Hlimit Hok'). fold servers.
  rewrite (InsertManyServers_nonempty _ _ Hs).
  eexists _, (imap (λ i s, {| _id := (nextId c + i)%nat; body := s |}) servers).
  split; [by rewrite length_imap|]. split; [done|].
  rewrite body_imap, Hservers. by rewrite Hperm.
Qed.

(** X15: when the lobby lists no server at all, [SyncLocalServers] does not
    report zero records stored: the insertion of an empty slice is
    refused, so it returns an error, and the collection stays as it was. *)
Theorem sync_nothing_listed now limit order regions c :
  GetCapableRegions = inr regions → limit ≠ 0 →
  order ≡ₚ units ExplicitPlatforms regions →
  Forall (λ u, (oneUnit (UnixMilli now) u).2 = None)
    (units ExplicitPlatforms regions) →
  concat (listed GetLobbyServers <$> units ExplicitPlatforms regions) = [] →
  ∃ err, syncAll c now limit order = Some (c, (0, Some err)).
Proof.
  intros Hregions Hlimit Hperm Hok Hnil.
  assert (Forall (λ u, (oneUnit (UnixMilli now) u).2 = None) order) as Hok'
    by by rewrite Hperm.
  set (servers := concat ((λ u, (oneUnit (UnixMilli now) u).1) <$> order)).
  assert (Server <$> servers = concat (listed GetLobbyServers <$> order))
    as Hservers.
  { unfold servers. clear Hperm Hnil.
    induction Hok' as [|u order Hu Hok' IH]; [done|].
    rewrite !fmap_cons. simpl. by rewrite fmap_app, IH, unit_ok_listed. }
  assert (servers = []) as Hs.
  { apply (fmap_nil_inv Server). rewrite Hservers.
    apply Permutation_nil_r. by rewrite Hperm, Hnil. }
  unfold SyncLocalServers.
  rewrite (collect_all_ok _ _ _ _ Hregions Hlimit Hok'). fold servers.
  rewrite Hs. by eexists.
Qed.

(** X16: one address the geoip reader cannot resolve, anywhere in any
    listing, fails the whole run: [GetAllServersFromLobby] returns an
    error and no record, and [SyncLocalServers] stores nothing. *)
Theorem collect_poisoned_by_one_address now limit order regions u l s :
  GetCapableRegions = inr regions → limit ≠ 0 →
  order ≡ₚ units ExplicitPlatforms regions →
  u ∈ units ExplicitPlatforms regions →
  GetLobbyServers u.1 u.2 = inr l → s ∈ l →
  (∃ err, geoipCity (Address s) = inl err) →
  ∃ err,
    collectAll now limit order = Some ([], Some err)
    ∧ ∀ c, syncAll c now limit order = Some (c, (0, Some err)).
Proof.
  intros Hregions Hlimit Hperm Hu Hl Hs Hgeo.
  set (ts := UnixMilli now).
  assert ((oneUnit ts u).2 ≠ None) as Hfail.
  { unfold fanoutUnit. rewrite Hl.
    destruct l as [|s0 l0]; [by apply elem_of_nil in Hs|].
    unfold processLobbyServer.
    destruct (processLoop_poisoned (s0 :: l0) s u.1 ts [] Hs Hgeo)
      as [err ->]. done. }
  destruct (first_failure (λ v, (oneUnit ts v).2 ≠ None) order)
    as (l1 & first & l2 & Horder & Hl1 & Hfirst).
  { apply Exists_exists. exists u. split; [by rewrite Hperm | done]. }
  destruct ((oneUnit ts first).2) as [err|] eqn:Herr; [|done].
  assert (Forall (λ v, (oneUnit ts v).2 = None) l1) as Hok.
  { eapply Forall_impl; [exact Hl1|]. intros v Hv. simpl in Hv.
    by destruct ((oneUnit ts v).2); [destruct Hv|]. }
  assert (collectAll now limit order = Some ([], Some err)) as Hcollect.
  { unfold GetAllServersFromLobby. rewrite Hregions.
    rewrite decide_False by (intros [? _]; done). fold ts.
    pose proof (finish_first_error _ _ _ ts l1 first l2 [] err Hok Herr)
      as Hrun.
    rewrite <- Horder in Hrun.
    destruct (foldl _ _ order) as [servers e]. simpl in Hrun. by subst e. }
  exists err. split; [done|].
  intros c. unfold SyncLocalServers. by rewrite Hcollect.
Qed.

End HandlerMore.

(** ** Expiry, continued *)

Section ExpiryMore.

Variable regexMatch : string → string → string → bool.
Variable regexValid : string → string → bool.
Variable emitRank : Value → Z.

Lemma ClearExpiredServers_sweep c now ttl :
  0 ≤ now < 2 ^ 63 → - 2 ^ 63 < ttl < 2 ^ 63 →
  ClearExpiredServers regexMatch regexValid c now ttl
  = ({| docs := base.filter
                  (λ d, ¬ CreatedAt (body d) ≤ (now - ttl) / 1000000)
                  (docs c);
        nextId := nextId c |},
     (Z.of_nat (length (base.filter
                          (λ d, CreatedAt (body d) ≤ (now - ttl) / 1000000)
                          (docs c))),
      Z.of_nat (length (base.filter
                          (λ d, ¬ CreatedAt (body d) ≤ (now - ttl) / 1000000)
                          (docs c))),
      None)).
Proof.
  intros Hnow Httl. unfold ClearExpiredServers, RemoveServers, removeAll.
  rewrite UnixMilli_Add by done.
  rewrite decide_True by by apply map_Forall_singleton.
  unfold estimatedCount. cbn [docs].
  set (expired := λ d : Document, CreatedAt (body d) ≤ (now - ttl) / 1000000).
  rewrite (list_filter_iff (matches regexMatch _) expired)
    by apply matches_lte.
  rewrite (list_filter_iff (λ d, ¬ matches _ _ d) (λ d, ¬ expired d))
    by (intros d; by rewrite matches_lte).
  done.
Qed.

Lemma sweeps_nest (a b : Z) (l : list Document) :
  a ≤ b →
  base.filter (λ d, ¬ CreatedAt (body d) ≤ b)
    (base.filter (λ d, ¬ CreatedAt (body d) ≤ a) l)
  = base.filter (λ d, ¬ CreatedAt (body d) ≤ b) l
  ∧ Nat.add
      (length (base.filter (λ d, CreatedAt (body d) ≤ a) l))
      (length (base.filter (λ d, CreatedAt (body d) ≤ b)
                 (base.filter (λ d, ¬ CreatedAt (body d) ≤ a) l)))
    = length (base.filter (λ d, CreatedAt (body d) ≤ b) l).
Proof.
  intros Hab. split.
  - apply list_filter_filter_l. intros d. lia.
  - rewrite <- (filter_split_length (λ d, CreatedAt (body d) ≤ a)
                  (base.filter (λ d, CreatedAt (body d) ≤ b) l)).
    f_equal.
    + f_equal. symmetry. apply list_filter_filter_l. intros d. lia.
    + f_equal. rewrite !list_filter_filter. apply list_filter_iff.
      intros d. tauto.
Qed.

(** X17: sweeps compose: a sweep followed by a later sweep with the same
    time to live leaves the collection that the later sweep alone would
    leave, and the two deleted counts add up to the count of the later
    sweep alone.  In particular a sweep repeated at once deletes
    nothing. *)
Theorem ClearExpiredServers_compose c now now' ttl :
  0 ≤ now → now ≤ now' → now' < 2 ^ 63 → - 2 ^ 63 < ttl < 2 ^ 63 →
  let first := ClearExpiredServers regexMatch regexValid c now ttl in
  let second := ClearExpiredServers regexMatch regexValid first.1 now' ttl in
  let alone := ClearExpiredServers regexMatch regexValid c now' ttl in
  second.1 = alone.1
  ∧ first.2.1.1 + second.2.1.1 = alone.2.1.1
  ∧ second.2.1.2 = alone.2.1.2
  ∧ (now' = now → second.2.1.1 = 0).
Proof.
  intros H0 Hle Hmax Httl first second alone.
  unfold second, alone, first.
  rewrite !ClearExpiredServers_sweep by lia. cbn [fst snd docs nextId].
  assert ((now - ttl) / 1000000 ≤ (now' - ttl) / 1000000) as Hcut
    by (apply Z.div_le_mono; lia).
  destruct (sweeps_nest _ _ (docs c) Hcut) as [Hdocs Hcount].
  rewrite Hdocs. split; [done|]. split; [lia|]. split; [done|].
  intros ->. 
  assert (length (base.filter (λ d, CreatedAt (body d) ≤ (now - ttl) / 1000000)
            (base.filter (λ d, ¬ CreatedAt (body d) ≤ (now - ttl) / 1000000)
               (docs c))) = 0%nat) as ->; [|done].
  rewrite filter_none; [done|]. by intros d [Hd _]%list_elem_of_filter.
Qed.

End ExpiryMore.

(** ** Queries *)

Lemma valueEq_str x y : valueEq (Some (VStr x)) (VStr y) = true → x = y.
Proof. intros H. apply bool_decide_eq_true in H. by injection H. Qed.

Lemma valueEq_bool x y : valueEq (Some (VBool x)) (VBool y) = true → x = y.
Proof. intros H. apply bool_decide_eq_true in H. by injection H. Qed.

(** [{"$in": tags}] on the tag names: one of the tags is among them. *)
Lemma valueEq_tags (names tags : list string) :
  existsb (valueEq (Some (match names with
                          | [] => VNull
                          | n :: ns => VStrs (n :: ns)
                          end)))
    (VStr <$> tags) = true →
  ∃ tag, tag ∈ tags ∧ tag ∈ names.
Proof.
  induction tags as [|t tags IH]; [done|].
  rewrite fmap_cons. simpl existsb. intros [Ht|Hrest]%orb_true_iff.
  - exists t. split; [left|]. destruct names as [|n names].
    + by apply bool_decide_eq_true in Ht.
    + by apply bool_decide_eq_true in Ht.
  - destruct (IH Hrest) as (tag & ? & ?). exists tag. split; [by right|done].
Qed.

Section QueryMore.

Variable regexMatch : string → string → string → bool.
Variable regexValid : string → string → bool.
Variable emitRank : Value → Z.

(** X18: every record [GetServersByPage] returns meets all the options of
    the query that are set (name pattern, address, area, intent, game mode,
    pvp flag, mod flag, and one of the tags), the password flag being
    enforced with the value asked for pvp. *)
Theorem GetServersByPage_enforces c options res :
  wf c →
  GetServersByPage regexMatch regexValid emitRank c options = (res, None) →
  Forall (enforced regexMatch options) (List res).
Proof.
  intros Hwf. unfold GetServersByPage.
  set (queryM := if decide (Options.Tags options ≠ "" ∧ _) then _ else _).
  destruct (FindServers _ _ _ _ _ _ _ _) as [result [err|]] eqn:Hfind;
    [done|].
  intros [= <-]. cbn [List]. apply Forall_forall. intros r.
  unfold lobbyRepo2Resp. intros (s & -> & Hs)%list_elem_of_fmap.
  destruct (FindServers_success_snapshot _ _ _ _ _ _ _ _ _ Hfind) as [ts Hts].
  destruct (FindServers_items_listed _ _ _ _ _ _ _ _ _ _ Hwf Hts Hfind s Hs)
    as (d & [Hm _]%list_elem_of_filter & <-).
  clear Hfind Hs.
  assert (∀ k cond, k ≠ "created_at" → queryM !! k = Some cond →
            holds regexMatch (field d k) cond = true) as Hq.
  { intros k cond Hk Hlook. apply (Hm k cond).
    by rewrite lookup_insert_ne. }
  clear Hm.
  assert
    ((Options.Name options ≠ "" →
        regexMatch (Options.Name options) "i" (Name (Server (body d))) = true)
     ∧ (Options.Address options ≠ "" →
          Address (Server (body d)) = Options.Address options)
     ∧ (Options.Area options ≠ "" → Area (body d) = Options.Area options)
     ∧ (Options.Intent options ≠ "" →
          Intent (Server (body d)) = Options.Intent options)
     ∧ (Options.GameMode options ≠ "" →
          GameMode (Server (body d)) = Options.GameMode options)
     ∧ (Options.PvpEnabled options ≠ 0 →
          PvpEnabled (Server (body d)) = (0 <? Options.PvpEnabled options))
     ∧ (Options.HasPassword options ≠ 0 →
          HasPassword (Server (body d)) = (0 <? Options.PvpEnabled options))
     ∧ (Options.ModEnabled options ≠ 0 →
          ModEnabled (Server (body d)) = (0 <? Options.ModEnabled options))
     ∧ (Options.Tags options ≠ "" →
          ∃ tag, tag ∈ splitComma (Options.Tags options)
                 ∧ tag ∈ TagNames (body d))) as Hall; [|exact Hall].
  repeat split; intros Hset.
  - apply (Hq "name" (CRegex (Options.Name options) "i")); [done|].
    unfold queryM. rewrite !lookup_optional_ne by done.
    rewrite decide_True by done. apply lookup_insert_eq.
  - apply valueEq_str.
    apply (Hq "address" (CEq (VStr (Options.Address options)))); [done|].
    unfold queryM. rewrite !lookup_optional_ne by done.
    rewrite decide_True by done. apply lookup_insert_eq.
  - apply valueEq_str.
    apply (Hq "area" (CEq (VStr (Options.Area options)))); [done|].
    unfold queryM. rewrite !lookup_optional_ne by done.
    rewrite decide_True by done. apply lookup_insert_eq.
  - apply valueEq_str.
    apply (Hq "intent" (CEq (VStr (Options.Intent options)))); [done|].
    unfold queryM. rewrite !lookup_optional_ne by done.
    rewrite decide_True by done. apply lookup_insert_eq.
  - apply valueEq_str.
    apply (Hq "game_mode" (CEq (VStr (Options.GameMode options)))); [done|].
    unfold queryM. rewrite !lookup_optional_ne by done.
    rewrite decide_True by done. apply lookup_insert_eq.
  - apply valueEq_bool.
    apply (Hq "pvp_enabled"
             (CEq (VBool (0 <? Options.PvpEnabled options)))); [done|].
    unfold queryM. rewrite !lookup_optional_ne by done.
    rewrite decide_True by done. apply lookup_insert_eq.
  - apply valueEq_bool.
    apply (Hq "has_password"
             (CEq (VBool (0 <? Options.PvpEnabled options)))); [done|].
    unfold queryM. rewrite !lookup_optional_ne by done.
    rewrite decide_True by done. apply lookup_insert_eq.
  - apply valueEq_bool.
    apply (Hq "mod_enabled"
             (CEq (VBool (0 <? Options.ModEnabled options)))); [done|].
    unfold queryM. rewrite !lookup_optional_ne by done.
    rewrite decide_True by done. apply lookup_insert_eq.
  - apply valueEq_tags.
    assert (queryM !! "tag_names"
            = Some (CIn (Some (VStr <$> splitComma (Options.Tags options)))))
      as Hlook.
    { unfold queryM. rewrite decide_True; [apply lookup_insert_eq|].
      split; [done|]. pose proof (splitComma_nonempty (Options.Tags options)).
      destruct (splitComma (Options.Tags options)); [done | simpl; lia]. }
    assert ("tag_names" ≠ "created_at") as Hne by done.
    exact (Hq "tag_names" _ Hne Hlook).
Qed.

(** X23: a name pattern that the regular-expression engine of the server
    does not accept fails the query: on a store that holds a document,
    [GetServersByPage] returns the error of the server with the zero page,
    the total that [FindServers] had set being dropped. *)
Theorem GetServersByPage_invalid_pattern c options :
  Options.Name options ≠ "" →
  regexValid (Options.Name options) "i" = false →
  docs c ≠ [] →
  GetServersByPage regexMatch regexValid emitRank c options
  = ({| Total := 0; List := [] |}, Some errRegexInvalid).
Proof.
  intros Hname Hbad Hne. unfold GetServersByPage.
  set (queryM := if decide (Options.Tags options ≠ "" ∧ _) then _ else _).
  destruct (currentSnapshot_some emitRank c Hne) as [ts Hts].
  assert (queryM !! "name" = Some (CRegex (Options.Name options) "i"))
    as Hlook.
  { unfold queryM. rewrite !lookup_optional_ne by done.
    rewrite decide_True by done. apply lookup_insert_eq. }
  assert (map_Forall (λ _ cond, nullIn cond = false)
            (<["created_at" := CEq (VInt ts)]> queryM)) as Hin.
  { apply map_Forall_insert_2; [done|]. unfold queryM.
    repeat (apply nullIn_optional; [done|]). apply map_Forall_empty. }
  rewrite (FindServers_rejected _ _ _ _ _ _ _ _ ts Hts).
  - unfold rejection. by rewrite decide_True by done.
  - intros Hok.
    assert (condOk regexValid (CRegex (Options.Name options) "i") = true)
      as Hc; [|simpl in Hc; congruence].
    apply (Hok "name"). by rewrite lookup_insert_ne.
Qed.

End QueryMore.

(** ** The details of one server *)

Section DetailsMore.

Variable D : Type.
Variable zeroDetails : D.
Variable lobbyGetServerDetails : string → string → error + ServerDetails.t D.
Variable PlatformDisplayName : string → Z → string.
Variable geoipCity : string → error + CityInfo.

(** X19: [GetServerDetails] answers in one of three ways: with the error of
    the lobby, with the error of the geoip reader for the address of the
    server, both with the zero response, or with the response made of the
    server, the region asked for, the city of its address, and the
    details as the lobby gave them. *)
Theorem GetServerDetails_outcomes region rowId :
  GetServerDetails D zeroDetails lobbyGetServerDetails PlatformDisplayName
    geoipCity region rowId
  = match lobbyGetServerDetails region rowId with
    | inl err =>
        Some ({| DetailResp.QueryLobbyServersResp := zeroResp;
                 DetailResp.Details := zeroDetails |}, Some (Upstream err))
    | inr answer =>
        match geoipCity (Address (ServerDetails.Server answer)) with
        | inl err =>
            Some ({| DetailResp.QueryLobbyServersResp := zeroResp;
                     DetailResp.Details := zeroDetails |},
                  Some (Upstream err))
        | inr city =>
            Some ({| DetailResp.QueryLobbyServersResp :=
                       default zeroResp
                         (head (lobbyRepo2Resp
                                  [enriched PlatformDisplayName region 0
                                     (ServerDetails.Server answer) city]));
                     DetailResp.Details := ServerDetails.Details answer |},
                  None)
        end
    end.
Proof.
  unfold GetServerDetails.
  destruct (lobbyGetServerDetails region rowId) as [err|answer]; [done|].
  unfold processLobbyServer. simpl processLoop.
  by destruct (geoipCity (Address (ServerDetails.Server answer))).
Qed.

(** X20: the guard on an empty process list is never taken and the
    indexing after it never fails: [GetServerDetails] always returns, and
    never with its own "invalid processList" error. *)
Theorem GetServerDetails_guard_dead region rowId :
  ∃ result err,
    GetServerDetails D zeroDetails lobbyGetServerDetails PlatformDisplayName
      geoipCity region rowId = Some (result, err)
    ∧ err ≠ Some ErrInvalidProcessList.
Proof.
  unfold GetServerDetails.
  destruct (lobbyGetServerDetails region rowId) as [err|answer];
    [by eexists _, _|].
  unfold processLobbyServer. simpl processLoop.
  destruct (geoipCity (Address (ServerDetails.Server answer)));
    by eexists _, _.
Qed.

End DetailsMore.

(** ** Instances of the further theorems *)

Lemma RemoveServers_partition_witness :
  wf twoSnapshots
  ∧ filterOk anyPattern ({["created_at" := CLte (VInt 100)]} : gmap string Cond)
  ∧ ∃ c' deleted total,
      RemoveServers literalRegex anyPattern twoSnapshots
        {["created_at" := CLte (VInt 100)]}
      = (c', (deleted, total, None))
      ∧ docs c'
        = base.filter
            (λ d, ¬ matches literalRegex {["created_at" := CLte (VInt 100)]} d)
            (docs twoSnapshots)
      ∧ deleted + total = Z.of_nat (length (docs twoSnapshots))
      ∧ total = Z.of_nat (length (docs c'))
      ∧ wf c'.
Proof.
  assert (wf twoSnapshots) as H1 by (split; compute_done).
  assert (filterOk anyPattern ({["created_at" := CLte (VInt 100)]} : gmap string Cond))
    as H2 by by apply map_Forall_singleton.
  exact (conj H1 (conj H2
    (RemoveServers_partition literalRegex anyPattern twoSnapshots _ H1 H2))).
Defined.

Lemma FindServers_page_bound_witness :
  wf fourListings
  ∧ filterOk anyPattern (∅ : gmap string Cond)
  ∧ length (List (FindServers literalRegex anyPattern shortKeysFirst
                    fourListings 1 2 "" ∅).1) = 2%nat
  ∧ (let res := (FindServers literalRegex anyPattern shortKeysFirst
                   fourListings 1 2 "" ∅).1 in
     Z.of_nat (length (List res)) ≤ effectiveSize 2
     ∧ Z.of_nat (length (List res)) ≤ Total res).
Proof.
  assert (wf fourListings) as H1 by (split; compute_done).
  assert (filterOk anyPattern (∅ : gmap string Cond)) as H2
    by apply map_Forall_empty.
  assert (length (List (FindServers literalRegex anyPattern shortKeysFirst
                          fourListings 1 2 "" ∅).1) = 2%nat) as H3
    by (vm_compute; reflexivity).
  exact (conj H1 (conj H2 (conj H3
    (FindServers_page_bound literalRegex anyPattern shortKeysFirst
       fourListings 1 2 "" ∅ H1 H2)))).
Defined.

Lemma FindServers_items_of_snapshot_witness :
  wf fourListings
  ∧ filterOk anyPattern (∅ : gmap string Cond)
  ∧ currentSnapshot inArrivalOrder fourListings = Some 1700000000123
  ∧ FindServers literalRegex anyPattern inArrivalOrder fourListings 1 10 "name" ∅ = (firstPage, None)
  ∧ ∀ s, s ∈ List firstPage →
      CreatedAt s = 1700000000123
      ∧ ∃ d, d ∈ docs fourListings ∧ body d = s
             ∧ matches literalRegex
                 (<["created_at" := CEq (VInt 1700000000123)]> ∅) d.
Proof.
  assert (wf fourListings) as H1 by (split; compute_done).
  assert (filterOk anyPattern (∅ : gmap string Cond)) as H2 by apply map_Forall_empty.
  assert (currentSnapshot inArrivalOrder fourListings = Some 1700000000123) as H3
    by (vm_compute; reflexivity).
  assert (FindServers literalRegex anyPattern inArrivalOrder fourListings 1 10 "name" ∅
          = (firstPage, None)) as H4 by (vm_compute; reflexivity).
  exact (conj H1 (conj H2 (conj H3 (conj H4
    (FindServers_items_of_snapshot literalRegex anyPattern inArrivalOrder
       fourListings 1 10 "name" ∅
       1700000000123 firstPage H1 H2 H3 H4))))).
Defined.

Lemma FindServers_past_the_end_witness :
  wf fourListings
  ∧ filterOk anyPattern (∅ : gmap string Cond)
  ∧ currentSnapshot inArrivalOrder fourListings = Some 1700000000123
  ∧ 0 ≤ (effectivePage 2 - 1) * effectiveSize 10 ≤ maxInt64
  ∧ Z.of_nat (length (representatives literalRegex fourListings
                        1700000000123 ∅))
    ≤ (effectivePage 2 - 1) * effectiveSize 10
  ∧ FindServers literalRegex anyPattern inArrivalOrder fourListings 2 10 "name" ∅
    = ({| Total := Z.of_nat (length (docs fourListings)); List := [] |},
       Some errInNeedsArray).
Proof.
  assert (wf fourListings) as H1 by (split; compute_done).
  assert (filterOk anyPattern (∅ : gmap string Cond)) as H2 by apply map_Forall_empty.
  assert (currentSnapshot inArrivalOrder fourListings = Some 1700000000123) as H3
    by (vm_compute; reflexivity).
  assert (0 ≤ (effectivePage 2 - 1) * effectiveSize 10 ≤ maxInt64) as H4
    by compute_done.
  assert (Z.of_nat (length (representatives literalRegex fourListings
                              1700000000123 ∅))
          ≤ (effectivePage 2 - 1) * effectiveSize 10) as H5 by compute_done.
  exact (conj H1 (conj H2 (conj H3 (conj H4 (conj H5
    (FindServers_past_the_end literalRegex anyPattern inArrivalOrder
       fourListings 2 10 "name" ∅
       1700000000123 H1 H2 H3 H4 H5)))))).
Defined.

Lemma FindServers_skip_overflow_witness :
  wf fourListings
  ∧ filterOk anyPattern (∅ : gmap string Cond)
  ∧ docs fourListings ≠ []
  ∧ wrap64 ((effectivePage (2 ^ 62) - 1) * effectiveSize 3) < 0
  ∧ FindServers literalRegex anyPattern inArrivalOrder fourListings (2 ^ 62) 3 "name" ∅
    = ({| Total := Z.of_nat (length (docs fourListings)); List := [] |},
       Some errSkipNegative).
Proof.
  assert (wf fourListings) as H1 by (split; compute_done).
  assert (filterOk anyPattern (∅ : gmap string Cond)) as H2 by apply map_Forall_empty.
  assert (docs fourListings ≠ []) as H3 by (vm_compute; discriminate).
  assert (wrap64 ((effectivePage (2 ^ 62) - 1) * effectiveSize 3) < 0) as H4
    by compute_done.
  exact (conj H1 (conj H2 (conj H3 (conj H4
    (FindServers_skip_overflow literalRegex anyPattern inArrivalOrder
       fourListings (2 ^ 62) 3 "name" ∅
       H1 H2 H3 H4))))).
Defined.

Lemma single_snapshot_agrees_witness :
  wf fourListings
  ∧ filterOk anyPattern (∅ : gmap string Cond)
  ∧ docs fourListings ≠ []
  ∧ Forall (λ d, CreatedAt (body d) = 1700000000123) (docs fourListings)
  ∧ (currentSnapshot inArrivalOrder fourListings = Some 1700000000123
     ∧ maxCreatedAt fourListings = Some 1700000000123
     ∧ Total (FindServers literalRegex anyPattern inArrivalOrder fourListings 1 10 "name" ∅).1
       = countAt fourListings 1700000000123).
Proof.
  assert (wf fourListings) as H1 by (split; compute_done).
  assert (filterOk anyPattern (∅ : gmap string Cond)) as H2 by apply map_Forall_empty.
  assert (docs fourListings ≠ []) as H3 by (vm_compute; discriminate).
  assert (Forall (λ d, CreatedAt (body d) = 1700000000123)
            (docs fourListings)) as H4 by compute_done.
  exact (conj H1 (conj H2 (conj H3 (conj H4
    (single_snapshot_agrees literalRegex anyPattern inArrivalOrder
       fourListings 1 10 "name" ∅
       1700000000123 H1 H2 H3 H4))))).
Defined.

Lemma processLobbyServer_resolved_witness :
  Forall2 (λ s city, pickyGeoip (Address s) = inr city)
    [sampleServer "9" "Gamma" false; sampleServer "7" "Beta" false]
    [sampleCity; sampleCity]
  ∧ processLobbyServer sampleDisplayName pickyGeoip
      [sampleServer "9" "Gamma" false; sampleServer "7" "Beta" false] "EU" 5
    = (zip_with (enriched sampleDisplayName "EU" 5)
         [sampleServer "9" "Gamma" false; sampleServer "7" "Beta" false]
         [sampleCity; sampleCity],
       None).
Proof.
  assert (Forall2 (λ s city, pickyGeoip (Address s) = inr city)
            [sampleServer "9" "Gamma" false; sampleServer "7" "Beta" false]
            [sampleCity; sampleCity]) as H1
    by (repeat constructor).
  exact (conj H1
    (processLobbyServer_resolved sampleDisplayName pickyGeoip _ _ "EU" 5 H1)).
Defined.

Lemma processLobbyServer_fail_fast_witness :
  Forall (λ s', ∃ city, pickyGeoip (Address s') = inr city)
    [sampleServer "9" "Gamma" false]
  ∧ pickyGeoip (Address strayServer)
    = inl (ErrExternal "geoip: address not found")
  ∧ processLobbyServer sampleDisplayName pickyGeoip
      ([sampleServer "9" "Gamma" false]
       ++ strayServer :: [sampleServer "7" "Beta" false]) "EU" 5
    = ([], Some (ErrExternal "geoip: address not found")).
Proof.
  assert (Forall (λ s', ∃ city, pickyGeoip (Address s') = inr city)
            [sampleServer "9" "Gamma" false]) as H1
    by (repeat constructor; by exists sampleCity).
  assert (pickyGeoip (Address strayServer)
          = inl (ErrExternal "geoip: address not found")) as H2
    by reflexivity.
  exact (conj H1 (conj H2
    (processLobbyServer_fail_fast sampleDisplayName pickyGeoip
       [sampleServer "9" "Gamma" false] strayServer
       [sampleServer "7" "Beta" false] "EU" 5 _ H1 H2))).
Defined.

Lemma collect_gathers_every_unit_witness :
  sampleRegions = inr ["US"; "EU"]
  ∧ 4 ≠ 0
  ∧ sampleOrder ≡ₚ units samplePlatforms ["US"; "EU"]
  ∧ Forall (λ u, (fanoutUnit sampleLobby sampleDisplayName sampleGeoip
                    (UnixMilli sampleNow) u).2 = None)
      (units samplePlatforms ["US"; "EU"])
  ∧ ∃ servers,
      GetAllServersFromLobby sampleRegions sampleLobby samplePlatforms
        sampleDisplayName sampleGeoip sampleNow 4 sampleOrder
      = Some (servers, None)
      ∧ servers
        ≡ₚ concat ((λ u, (fanoutUnit sampleLobby sampleDisplayName sampleGeoip
                            (UnixMilli sampleNow) u).1)
                   <$> units samplePlatforms ["US"; "EU"]).
Proof.
  assert (sampleRegions = inr ["US"; "EU"]) as H1 by reflexivity.
  assert (4 ≠ 0) as H2 by compute_done.
  assert (sampleOrder ≡ₚ units samplePlatforms ["US"; "EU"]) as H3
    by compute_done.
  assert (Forall (λ u, (fanoutUnit sampleLobby sampleDisplayName sampleGeoip
                          (UnixMilli sampleNow) u).2 = None)
            (units samplePlatforms ["US"; "EU"])) as H4 by compute_done.
  exact (conj H1 (conj H2 (conj H3 (conj H4
    (collect_gathers_every_unit sampleRegions sampleLobby samplePlatforms
       sampleDisplayName sampleGeoip sampleNow 4 sampleOrder ["US"; "EU"]
       H1 H2 H3 H4))))).
Defined.

Lemma sync_stores_every_listed_server_witness :
  sampleRegions = inr ["US"; "EU"]
  ∧ 4 ≠ 0
  ∧ sampleOrder ≡ₚ units samplePlatforms ["US"; "EU"]
  ∧ Forall (λ u, (fanoutUnit sampleLobby sampleDisplayName sampleGeoip
                    (UnixMilli sampleNow) u).2 = None)
      (units samplePlatforms ["US"; "EU"])
  ∧ concat (listed sampleLobby <$> units samplePlatforms ["US"; "EU"]) ≠ []
  ∧ ∃ c' new,
      SyncLocalServers sampleRegions sampleLobby samplePlatforms
        sampleDisplayName sampleGeoip twoSnapshots sampleNow 4 sampleOrder
      = Some (c', (Z.of_nat (length new), None))
      ∧ docs c' = docs twoSnapshots ++ new
      ∧ Server <$> (body <$> new)
        ≡ₚ concat (listed sampleLobby <$> units samplePlatforms ["US"; "EU"]).
Proof.
  assert (sampleRegions = inr ["US"; "EU"]) as H1 by reflexivity.
  assert (4 ≠ 0) as H2 by compute_done.
  assert (sampleOrder ≡ₚ units samplePlatforms ["US"; "EU"]) as H3
    by compute_done.
  assert (Forall (λ u, (fanoutUnit sampleLobby sampleDisplayName sampleGeoip
                          (UnixMilli sampleNow) u).2 = None)
            (units samplePlatforms ["US"; "EU"])) as H4 by compute_done.
  assert (concat (listed sampleLobby <$> units samplePlatforms ["US"; "EU"])
          ≠ []) as H5 by (vm_compute; discriminate).
  exact (conj H1 (conj H2 (conj H3 (conj H4 (conj H5
    (sync_stores_every_listed_server sampleRegions sampleLobby
       samplePlatforms sampleDisplayName sampleGeoip sampleNow 4 sampleOrder
       ["US"; "EU"] twoSnapshots H1 H2 H3 H4 H5)))))).
Defined.

Lemma sync_nothing_listed_witness :
  sampleRegions = inr ["US"; "EU"]
  ∧ 4 ≠ 0
  ∧ sampleOrder ≡ₚ units samplePlatforms ["US"; "EU"]
  ∧ Forall (λ u, (fanoutUnit quietLobby sampleDisplayName sampleGeoip
                    (UnixMilli sampleNow) u).2 = None)
      (units samplePlatforms ["US"; "EU"])
  ∧ concat (listed quietLobby <$> units samplePlatforms ["US"; "EU"]) = []
  ∧ ∃ err,
      SyncLocalServers sampleRegions quietLobby samplePlatforms
        sampleDisplayName sampleGeoip twoSnapshots sampleNow 4 sampleOrder
      = Some (twoSnapshots, (0, Some err)).
Proof.
  assert (sampleRegions = inr ["US"; "EU"]) as H1 by reflexivity.
  assert (4 ≠ 0) as H2 by compute_done.
  assert (sampleOrder ≡ₚ units samplePlatforms ["US"; "EU"]) as H3
    by compute_done.
  assert (Forall (λ u, (fanoutUnit quietLobby sampleDisplayName sampleGeoip
                          (UnixMilli sampleNow) u).2 = None)
            (units samplePlatforms ["US"; "EU"])) as H4 by compute_done.
  assert (concat (listed quietLobby <$> units samplePlatforms ["US"; "EU"])
          = []) as H5 by reflexivity.
  exact (conj H1 (conj H2 (conj H3 (conj H4 (conj H5
    (sync_nothing_listed sampleRegions quietLobby samplePlatforms
       sampleDisplayName sampleGeoip sampleNow 4 sampleOrder ["US"; "EU"]
       twoSnapshots H1 H2 H3 H4 H5)))))).
Defined.

Lemma collect_poisoned_by_one_address_witness :
  sampleRegions = inr ["US"; "EU"]
  ∧ 4 ≠ 0
  ∧ sampleOrder ≡ₚ units samplePlatforms ["US"; "EU"]
  ∧ ("EU", 1) ∈ units samplePlatforms ["US"; "EU"]
  ∧ strayLobby "EU" 1 = inr [sampleServer "9" "Gamma" false; strayServer]
  ∧ strayServer ∈ [sampleServer "9" "Gamma" false; strayServer]
  ∧ (∃ err, pickyGeoip (Address strayServer) = inl err)
  ∧ ∃ err,
      GetAllServersFromLobby sampleRegions strayLobby samplePlatforms
        sampleDisplayName pickyGeoip sampleNow 4 sampleOrder
      = Some ([], Some err)
      ∧ ∀ c, SyncLocalServers sampleRegions strayLobby samplePlatforms
               sampleDisplayName pickyGeoip c sampleNow 4 sampleOrder
             = Some (c, (0, Some err)).
Proof.
  assert (sampleRegions = inr ["US"; "EU"]) as H1 by reflexivity.
  assert (4 ≠ 0) as H2 by compute_done.
  assert (sampleOrder ≡ₚ units samplePlatforms ["US"; "EU"]) as H3
    by compute_done.
  assert (("EU", 1) ∈ units samplePlatforms ["US"; "EU"]) as H4
    by compute_done.
  assert (strayLobby "EU" 1
          = inr [sampleServer "9" "Gamma" false; strayServer]) as H5
    by reflexivity.
  assert (strayServer ∈ [sampleServer "9" "Gamma" false; strayServer]) as H6
    by (right; left).
  assert (∃ err, pickyGeoip (Address strayServer) = inl err) as H7
    by (by eexists).
  exact (conj H1 (conj H2 (conj H3 (conj H4 (conj H5 (conj H6 (conj H7
    (collect_poisoned_by_one_address sampleRegions strayLobby
       samplePlatforms sampleDisplayName pickyGeoip sampleNow 4 sampleOrder
       ["US"; "EU"] ("EU", 1) _ strayServer H1 H2 H3 H4 H5 H6 H7)))))))).
Defined.

Lemma ClearExpiredServers_compose_witness :
  0 ≤ 150000000
  ∧ 150000000 ≤ 250000000
  ∧ 250000000 < 2 ^ 63
  ∧ - 2 ^ 63 < 20000000 < 2 ^ 63
  ∧ (let first := ClearExpiredServers literalRegex anyPattern twoSnapshots 150000000
                    20000000 in
     let second := ClearExpiredServers literalRegex anyPattern first.1 250000000
                     20000000 in
     let alone := ClearExpiredServers literalRegex anyPattern twoSnapshots 250000000
                    20000000 in
     second.1 = alone.1
     ∧ first.2.1.1 + second.2.1.1 = alone.2.1.1
     ∧ second.2.1.2 = alone.2.1.2
     ∧ (250000000 = 150000000 → second.2.1.1 = 0)).
Proof.
  assert (0 ≤ 150000000) as H1 by compute_done.
  assert (150000000 ≤ 250000000) as H2 by compute_done.
  assert (250000000 < 2 ^ 63) as H3 by compute_done.
  assert (- 2 ^ 63 < 20000000 < 2 ^ 63) as H4 by compute_done.
  exact (conj H1 (conj H2 (conj H3 (conj H4
    (ClearExpiredServers_compose literalRegex anyPattern twoSnapshots
       150000000
       250000000 20000000 H1 H2 H3 H4))))).
Defined.

Lemma GetServersByPage_enforces_witness :
  wf fourListings
  ∧ GetServersByPage literalRegex anyPattern inArrivalOrder fourListings usServers = (usPage, None)
  ∧ Forall (enforced literalRegex usServers) (List usPage).
Proof.
  assert (wf fourListings) as H1 by (split; compute_done).
  assert (GetServersByPage literalRegex anyPattern inArrivalOrder fourListings usServers
          = (usPage, None)) as H2 by (vm_compute; reflexivity).
  exact (conj H1 (conj H2
    (GetServersByPage_enforces literalRegex anyPattern inArrivalOrder
       fourListings usServers usPage H1 H2))).
Defined.


Lemma GetServersByPage_invalid_pattern_witness :
  Options.Name brokenName ≠ ""
  ∧ closedParens (Options.Name brokenName) "i" = false
  ∧ docs fourListings ≠ []
  ∧ GetServersByPage literalRegex closedParens inArrivalOrder fourListings
      brokenName
    = ({| Total := 0; List := [] |}, Some errRegexInvalid).
Proof.
  assert (Options.Name brokenName ≠ "") as H1 by (vm_compute; discriminate).
  assert (closedParens (Options.Name brokenName) "i" = false) as H2
    by reflexivity.
  assert (docs fourListings ≠ []) as H3 by (vm_compute; discriminate).
  exact (conj H1 (conj H2 (conj H3
    (GetServersByPage_invalid_pattern literalRegex closedParens
       inArrivalOrder fourListings brokenName H1 H2 H3)))).
Defined.
